(** * Guess the Number: the round engine and the leaderboard of App.tsx

    A shallow embedding of the game logic of
    [guess_the_number_frontend/App.tsx]: the component state, the
    handlers [handleSubmitGuess], [startNewGame], [handleSaveWin], the
    comparator of [sortLeaderboard] and the start-up effect that loads
    the leaderboard, together with the JavaScript built-ins they call
    ([String.prototype.trim], [Number], [Number.isInteger],
    [Array.prototype.sort], [JSON.parse]). *)

From Stdlib Require Import ZArith NArith List Bool String Ascii Lia.
From Stdlib Require Import Permutation Sorted DecimalString.
From Stdlib Require DecimalPos.
Import ListNotations.

Local Open Scope Z_scope.
Set Warnings "-register-all".

(** ** JavaScript strings *)

Module JS.

(** A JavaScript string is a sequence of UTF-16 code units. *)
Definition jsstring : Type := list N.

(** The code units of an ASCII literal of the source. *)
Definition lit (s : string) : jsstring :=
  map N_of_ascii (list_ascii_of_string s).

Fixpoint streq (a b : jsstring) : bool :=
  match a, b with
  | [], [] => true
  | x :: a', y :: b' => N.eqb x y && streq a' b'
  | _, _ => false
  end.

(** [!s] is true of the empty string only. *)
Definition isEmpty (s : jsstring) : bool :=
  match s with [] => true | _ :: _ => false end.

(** WhiteSpace and LineTerminator code points (ECMA-262, 12.2 and 12.3):
    TAB, LF, VT, FF, CR, SP, NBSP, U+1680, U+2000..U+200A, LS, PS,
    U+202F, U+205F, U+3000 and the byte order mark. *)
Definition isWhiteSpace (c : N) : bool :=
  (match c with
   | 9 | 10 | 11 | 12 | 13 | 32 | 160 | 5760
   | 8232 | 8233 | 8239 | 8287 | 12288 | 65279 => true
   | _ => (8192 <=? c) && (c <=? 8202)
   end)%N.

Fixpoint trimStart (s : jsstring) : jsstring :=
  match s with
  | [] => []
  | c :: r => if isWhiteSpace c then trimStart r else s
  end.

Definition trimEnd (s : jsstring) : jsstring := rev (trimStart (rev s)).

(** [String.prototype.trim]. *)
Definition trim (s : jsstring) : jsstring := trimEnd (trimStart s).

(** The longest prefix of [s] whose code units satisfy [p], and the rest. *)
Fixpoint span (p : N -> bool) (s : jsstring) : jsstring * jsstring :=
  match s with
  | [] => ([], [])
  | c :: r => if p c then let '(a, b) := span p r in (c :: a, b) else ([], s)
  end.

(** ** Numbers

    A Number is an IEEE 754 binary64 value.  The finite ones are kept
    as [m * 2^e]; the sign of zero is dropped, as nothing in the program
    tells [-0] from [+0]. *)

Inductive number : Type :=
| NaN
| Infinity (negative : bool)
| Finite (m e : Z).

(** The integer nearest to [x / y], ties to the even one ([0 <= x], [0 < y]). *)
Definition rne_div (x y : Z) : Z :=
  let q := x / y in
  match 2 * (x mod y) ?= y with
  | Lt => q
  | Gt => q + 1
  | Eq => if Z.even q then q else q + 1
  end.

(** [n / d / 2^e] as a fraction of integers. *)
Definition scale2 (n d e : Z) : Z * Z :=
  if 0 <=? e then (n, d * 2 ^ e) else (n * 2 ^ (- e), d).

(** The exponent of the binade of [n / d]: the [e] with
    [2^52 <= n / d / 2^e < 2^53], and [-1074] for the subnormal range. *)
Definition binade (n d : Z) : Z :=
  let e0 := Z.log2 n - Z.log2 d - 52 in
  let '(x, y) := scale2 n d e0 in
  Z.max (if x <? y * 2 ^ 52 then e0 - 1 else e0) (-1074).

(** The Number nearest to the rational [n / d] ([0 <= n], [0 < d]), with
    the sign [neg]: round to nearest, ties to even, overflow to
    Infinity. *)
Definition round64 (neg : bool) (n d : Z) : number :=
  if n =? 0 then Finite 0 0
  else
    let e := binade n d in
    let '(x, y) := scale2 n d e in
    let m := rne_div x y in
    if (971 <? e) || ((e =? 971) && (2 ^ 53 <=? m)) then Infinity neg
    else Finite (if neg then - m else m) e.

Definition Number_isFinite (x : number) : bool :=
  match x with Finite _ _ => true | _ => false end.

Definition Number_isInteger (x : number) : bool :=
  match x with
  | Finite m e => (0 <=? e) || (m mod 2 ^ (- e) =? 0)
  | _ => false
  end.

(** The mathematical value of a Number that is an integer. *)
Definition intOf (x : number) : Z :=
  match x with
  | Finite m e => if 0 <=? e then m * 2 ^ e else m / 2 ^ (- e)
  | _ => 0
  end.

(** *** Number(string): StringToNumber (ECMA-262, 7.1.4.1.1) *)

Definition isDigit (c : N) : bool := ((48 <=? c) && (c <=? 57))%N.
Definition isBinDigit (c : N) : bool := ((48 <=? c) && (c <=? 49))%N.
Definition isOctDigit (c : N) : bool := ((48 <=? c) && (c <=? 55))%N.
Definition isHexDigit (c : N) : bool :=
  (isDigit c || ((65 <=? c) && (c <=? 70)) || ((97 <=? c) && (c <=? 102)))%N.

Definition digitValue (c : N) : Z :=
  (if isDigit c then Z.of_N c - 48
   else if (97 <=? c)%N then Z.of_N c - 87
   else Z.of_N c - 55).

(** The mathematical value of a string of digits in base [b]. *)
Definition digitsValue (b : Z) (ds : jsstring) : Z :=
  fold_left (fun acc c => acc * b + digitValue c) ds 0.

(** The Number for the decimal value [k * 10^x]. *)
Definition roundDecimal (neg : bool) (k x : Z) : number :=
  if 0 <=? x then round64 neg (k * 10 ^ x) 1 else round64 neg k (10 ^ (- x)).

(** An optional sign. *)
Definition splitSign (s : jsstring) : bool * jsstring :=
  match s with
  | c :: r =>
      if N.eqb c 43 then (false, r)
      else if N.eqb c 45 then (true, r)
      else (false, s)
  | [] => (false, s)
  end.

(** ExponentPart, optional and up to the end of the string:
    [e] or [E], an optional sign, one digit or more. *)
Definition exponentPart (s : jsstring) : option Z :=
  match s with
  | [] => Some 0
  | c :: r =>
      if (N.eqb c 101 || N.eqb c 69)%N then
        let '(neg, r') := splitSign r in
        let '(ds, rest) := span isDigit r' in
        if isEmpty ds || negb (isEmpty rest) then None
        else Some (if neg then - digitsValue 10 ds else digitsValue 10 ds)
      else None
  end.

(** StrUnsignedDecimalLiteral other than [Infinity]:
    [digits . digits? exp?], [. digits exp?] or [digits exp?]. *)
Definition unsignedDecimal (neg : bool) (s : jsstring) : number :=
  let '(ip, r1) := span isDigit s in
  let '(fp, r2) :=
    match r1 with
    | c :: r => if N.eqb c 46 then span isDigit r else ([], r1)
    | [] => ([], r1)
    end in
  if isEmpty ip && isEmpty fp then NaN
  else
    match exponentPart r2 with
    | None => NaN
    | Some x =>
        roundDecimal neg (digitsValue 10 (ip ++ fp)) (x - Z.of_nat (List.length fp))
    end.

(** NonDecimalIntegerLiteral: [0b], [0o] or [0x] (either case) and one
    digit or more of that base; it takes no sign. *)
Definition nonDecimal (s : jsstring) : option number :=
  match s with
  | z :: p :: ds =>
      let lit_in (isD : N -> bool) (b : Z) :=
        if negb (isEmpty ds) && forallb isD ds
        then Some (round64 false (digitsValue b ds) 1) else Some NaN in
      if negb (N.eqb z 48) then None
      else if (N.eqb p 98 || N.eqb p 66)%N then lit_in isBinDigit 2
      else if (N.eqb p 111 || N.eqb p 79)%N then lit_in isOctDigit 8
      else if (N.eqb p 120 || N.eqb p 88)%N then lit_in isHexDigit 16
      else None
  | _ => None
  end.

(** [Number(s)] for a string [s]. *)
Definition Number (s : jsstring) : number :=
  let t := trim s in
  if isEmpty t then Finite 0 0
  else
    match nonDecimal t with
    | Some x => x
    | None =>
        let '(neg, u) := splitSign t in
        if streq u (lit "Infinity") then Infinity neg
        else unsignedDecimal neg u
    end.

(** [Number.prototype.toString] of an integer, in base 10: the decimal
    digits, for absolute values below [10^21], which covers what the
    program prints (bounds, attempts and targets). *)
Definition Number_toString (z : Z) : jsstring :=
  lit (NilZero.string_of_int (Z.to_int z)).

End JS.

Import JS.

(** ** The data model of App.tsx *)

Inductive DifficultyKey : Type := easy | medium | hard.

Definition DifficultyKey_eqb (a b : DifficultyKey) : bool :=
  match a, b with
  | easy, easy | medium, medium | hard, hard => true
  | _, _ => false
  end.

Record DifficultyConfig : Type := {
  key : DifficultyKey;
  label : jsstring;
  min : Z;
  max : Z;
  maxAttempts : Z
}.

Module Entry.
Record LeaderboardEntry : Type := {
  id : jsstring;
  playerName : jsstring;
  difficulty : DifficultyKey;
  attempts : Z;
  rangeMax : Z;
  dateISO : jsstring
}.
End Entry.
Definition LeaderboardEntry : Type := Entry.LeaderboardEntry.

Definition Easy : DifficultyConfig :=
  {| key := easy; label := lit "Easy"; min := 1; max := 20; maxAttempts := 6 |}.
Definition Medium : DifficultyConfig :=
  {| key := medium; label := lit "Medium"; min := 1; max := 50; maxAttempts := 8 |}.
Definition Hard : DifficultyConfig :=
  {| key := hard; label := lit "Hard"; min := 1; max := 100; maxAttempts := 10 |}.

Definition DIFFICULTIES : list DifficultyConfig := [Easy; Medium; Hard].

(** [DIFFICULTIES.find((d) => d.key === k) ?? DIFFICULTIES[0]]. *)
Definition configOf (k : DifficultyKey) : DifficultyConfig :=
  match find (fun d => DifficultyKey_eqb (key d) k) DIFFICULTIES with
  | Some d => d
  | None => nth 0 DIFFICULTIES Easy
  end.

(** A value of [Math.random()]: the double [mant * 2^expo], which is at
    least 0 and below 1. *)
Record Random : Type := { mant : Z; expo : Z }.

(** [Math.floor] of a finite Number (the product below is finite, a
    value of [Math.random()] being below 1). *)
Definition Math_floor (x : number) : Z :=
  match x with
  | Finite m e => if 0 <=? e then m * 2 ^ e else m / 2 ^ (- e)
  | _ => 0
  end.

(** The double product of a double and an integer. *)
Definition mulInt (u : Random) (k : Z) : number :=
  let p := mant u * k in
  if 0 <=? expo u then round64 (p <? 0) (Z.abs p * 2 ^ expo u) 1
  else round64 (p <? 0) (Z.abs p) (2 ^ (- expo u)).

(** [Math.floor(Math.random() * (max - min + 1)) + min], for the value [u]
    of [Math.random()]. *)
Definition randomIntInclusive (u : Random) (min max : Z) : Z :=
  Math_floor (mulInt u (max - min + 1)) + min.

(** The state of the [App] component: one field per [useState].  The
    numbers [target], [attempts] and [pendingWinAttempts] are integers
    far below [2^53], where the arithmetic of Numbers is that of [Z]. *)
Record AppState : Type := {
  difficultyKey : DifficultyKey;
  target : Z;
  attempts : Z;
  hint : jsstring;
  guessText : jsstring;
  gameOver : bool;
  leaderboard : list LeaderboardEntry;
  leaderboardOpen : bool;
  nameModalOpen : bool;
  playerName : jsstring;
  pendingWinAttempts : option Z
}.

(** The [difficulty] of a render: the configuration of its [difficultyKey]. *)
Definition difficulty (s : AppState) : DifficultyConfig :=
  configOf (difficultyKey s).

(** What a handler asks of the host besides state updates. *)
Inductive Effect : Type :=
| FocusInput
| Keyboard_dismiss
| Alert_alert (title message : jsstring)
| persistLeaderboard (next : list LeaderboardEntry)
| AsyncStorage_removeItem.

(** A handler body: the queued state updates, applied to the pending
    state in order, and the effects requested.  The values a handler
    reads come from the render it was created in, which is the state it
    is run on. *)
Definition Update : Type := AppState -> AppState * list Effect.

Definition done : Update := fun p => (p, []).

Definition andThen (f g : Update) : Update :=
  fun p => let '(p1, e1) := f p in let '(p2, e2) := g p1 in (p2, e1 ++ e2).

Notation "f ;; g" := (andThen f g) (at level 61, right associativity).

Definition perform (e : Effect) : Update := fun p => (p, [e]).

Definition setDifficultyKey (v : DifficultyKey) : Update := fun p =>
  ({| difficultyKey := v; target := target p; attempts := attempts p;
      hint := hint p; guessText := guessText p; gameOver := gameOver p;
      leaderboard := leaderboard p; leaderboardOpen := leaderboardOpen p;
      nameModalOpen := nameModalOpen p; playerName := playerName p;
      pendingWinAttempts := pendingWinAttempts p |}, []).

Definition setTarget (v : Z) : Update := fun p =>
  ({| difficultyKey := difficultyKey p; target := v; attempts := attempts p;
      hint := hint p; guessText := guessText p; gameOver := gameOver p;
      leaderboard := leaderboard p; leaderboardOpen := leaderboardOpen p;
      nameModalOpen := nameModalOpen p; playerName := playerName p;
      pendingWinAttempts := pendingWinAttempts p |}, []).

Definition setAttempts (v : Z) : Update := fun p =>
  ({| difficultyKey := difficultyKey p; target := target p; attempts := v;
      hint := hint p; guessText := guessText p; gameOver := gameOver p;
      leaderboard := leaderboard p; leaderboardOpen := leaderboardOpen p;
      nameModalOpen := nameModalOpen p; playerName := playerName p;
      pendingWinAttempts := pendingWinAttempts p |}, []).

Definition setHint (v : jsstring) : Update := fun p =>
  ({| difficultyKey := difficultyKey p; target := target p;
      attempts := attempts p; hint := v; guessText := guessText p;
      gameOver := gameOver p; leaderboard := leaderboard p;
      leaderboardOpen := leaderboardOpen p; nameModalOpen := nameModalOpen p;
      playerName := playerName p;
      pendingWinAttempts := pendingWinAttempts p |}, []).

Definition setGuessText (v : jsstring) : Update := fun p =>
  ({| difficultyKey := difficultyKey p; target := target p;
      attempts := attempts p; hint := hint p; guessText := v;
      gameOver := gameOver p; leaderboard := leaderboard p;
      leaderboardOpen := leaderboardOpen p; nameModalOpen := nameModalOpen p;
      playerName := playerName p;
      pendingWinAttempts := pendingWinAttempts p |}, []).

Definition setGameOver (v : bool) : Update := fun p =>
  ({| difficultyKey := difficultyKey p; target := target p;
      attempts := attempts p; hint := hint p; guessText := guessText p;
      gameOver := v; leaderboard := leaderboard p;
      leaderboardOpen := leaderboardOpen p; nameModalOpen := nameModalOpen p;
      playerName := playerName p;
      pendingWinAttempts := pendingWinAttempts p |}, []).

Definition setLeaderboard (v : list LeaderboardEntry) : Update := fun p =>
  ({| difficultyKey := difficultyKey p; target := target p;
      attempts := attempts p; hint := hint p; guessText := guessText p;
      gameOver := gameOver p; leaderboard := v;
      leaderboardOpen := leaderboardOpen p; nameModalOpen := nameModalOpen p;
      playerName := playerName p;
      pendingWinAttempts := pendingWinAttempts p |}, []).

Definition setLeaderboardOpen (v : bool) : Update := fun p =>
  ({| difficultyKey := difficultyKey p; target := target p;
      attempts := attempts p; hint := hint p; guessText := guessText p;
      gameOver := gameOver p; leaderboard := leaderboard p;
      leaderboardOpen := v; nameModalOpen := nameModalOpen p;
      playerName := playerName p;
      pendingWinAttempts := pendingWinAttempts p |}, []).

Definition setNameModalOpen (v : bool) : Update := fun p =>
  ({| difficultyKey := difficultyKey p; target := target p;
      attempts := attempts p; hint := hint p; guessText := guessText p;
      gameOver := gameOver p; leaderboard := leaderboard p;
      leaderboardOpen := leaderboardOpen p; nameModalOpen := v;
      playerName := playerName p;
      pendingWinAttempts := pendingWinAttempts p |}, []).

Definition setPlayerName (v : jsstring) : Update := fun p =>
  ({| difficultyKey := difficultyKey p; target := target p;
      attempts := attempts p; hint := hint p; guessText := guessText p;
      gameOver := gameOver p; leaderboard := leaderboard p;
      leaderboardOpen := leaderboardOpen p; nameModalOpen := nameModalOpen p;
      playerName := v; pendingWinAttempts := pendingWinAttempts p |}, []).

Definition setPendingWinAttempts (v : option Z) : Update := fun p =>
  ({| difficultyKey := difficultyKey p; target := target p;
      attempts := attempts p; hint := hint p; guessText := guessText p;
      gameOver := gameOver p; leaderboard := leaderboard p;
      leaderboardOpen := leaderboardOpen p; nameModalOpen := nameModalOpen p;
      playerName := playerName p; pendingWinAttempts := v |}, []).

(** ** The round engine *)

(** [startNewGame(nextDifficultyKey)], for the value [u] that
    [Math.random()] returns in it. *)
Definition startNewGame (u : Random) (nextDifficultyKey : DifficultyKey)
    (s : AppState) : AppState * list Effect :=
  let config := configOf nextDifficultyKey in
  (setTarget (randomIntInclusive u (min config) (max config)) ;;
   setAttempts 0 ;;
   setGuessText [] ;;
   setGameOver false ;;
   setHint (lit "Guess a number between " ++ Number_toString (min config)
            ++ lit " and " ++ Number_toString (max config) ++ lit ".") ;;
   setPendingWinAttempts None ;;
   setNameModalOpen false ;;
   perform FocusInput) s.

Definition parseGuess (text : jsstring) : option Z :=
  let trimmed := trim text in
  if isEmpty trimmed then None
  else
    let n := Number trimmed in
    if negb (Number_isFinite n) || negb (Number_isInteger n) then None
    else Some (intOf n).

Definition attemptLimitReached (s : AppState) (nextAttempts : Z) : bool :=
  maxAttempts (difficulty s) <=? nextAttempts.

Definition handleSubmitGuess (s : AppState) : AppState * list Effect :=
  (if gameOver s then done
   else
     match parseGuess (guessText s) with
     | None => setHint (lit "Please enter a whole number.")
     | Some guess =>
         if (guess <? min (difficulty s)) || (max (difficulty s) <? guess) then
           setHint (lit "Your guess must be between "
                    ++ Number_toString (min (difficulty s)) ++ lit " and "
                    ++ Number_toString (max (difficulty s)) ++ lit ".")
         else
           let nextAttempts := attempts s + 1 in
           setAttempts nextAttempts ;;
           if guess =? target s then
             setGameOver true ;;
             setHint (lit "Correct! You guessed it in "
                      ++ Number_toString nextAttempts ++ lit " attempt"
                      ++ (if nextAttempts =? 1 then [] else lit "s")
                      ++ lit ".") ;;
             setPendingWinAttempts (Some nextAttempts) ;;
             setNameModalOpen true ;;
             perform Keyboard_dismiss
           else
             (if guess <? target s then setHint (lit "Higher.")
              else setHint (lit "Lower.")) ;;
             if attemptLimitReached s nextAttempts then
               setGameOver true ;;
               setHint (lit "Game over. The number was "
                        ++ Number_toString (target s) ++ lit ".") ;;
               perform Keyboard_dismiss
             else done
     end) s.

(** The guess field: [onChangeText] keeps the decimal digits of what was
    typed, [t.replace(/[^\d]/g, '')]. *)
Definition onChangeText (t : jsstring) (s : AppState) : AppState * list Effect :=
  setGuessText (filter isDigit t) s.

(** A difficulty chip: [setDifficultyKey(d.key)], and when the key
    changed the effect on [difficultyKey] starts a new game with it. *)
Definition pressDifficulty (u : Random) (k : DifficultyKey) (s : AppState)
    : AppState * list Effect :=
  if DifficultyKey_eqb k (difficultyKey s) then (s, [])
  else
    let '(s1, e1) := setDifficultyKey k s in
    let '(s2, e2) := startNewGame u (key (difficulty s1)) s1 in
    (s2, e1 ++ e2).

(** The New Game button: [startNewGame(difficulty.key)]. *)
Definition pressNewGame (u : Random) (s : AppState) : AppState * list Effect :=
  startNewGame u (key (difficulty s)) s.

(** The first render, and the state once the effect of the first render
    has started its game. *)
Definition initialState (u : Random) : AppState :=
  {| difficultyKey := easy;
     target := randomIntInclusive u (min (configOf easy)) (max (configOf easy));
     attempts := 0;
     hint := lit "Pick a difficulty, then guess the number.";
     guessText := [];
     gameOver := false;
     leaderboard := [];
     leaderboardOpen := false;
     nameModalOpen := false;
     playerName := [];
     pendingWinAttempts := None |}.

Definition mounted (u0 u1 : Random) : AppState :=
  fst (pressNewGame u1 (initialState u0)).

(** The operation the specification calls [submitGuess(state, rawInput)]:
    the guess field holds [rawInput] when the guess is submitted. *)
Definition submitGuess (rawInput : jsstring) (s : AppState) : AppState :=
  fst (handleSubmitGuess (fst (setGuessText rawInput s))).

Definition submitGuesses (inputs : list jsstring) (s : AppState) : AppState :=
  fold_left (fun st raw => submitGuess raw st) inputs s.

(** ** The leaderboard *)

(** [Array.prototype.sort] with a comparator.  The sort is stable; for a
    consistent comparator its result is the one of this insertion sort
    ([Array_sort_unique] below): an element goes before the first
    element after it that it does not compare greater than. *)
Fixpoint insertSorted {A : Type} (cmp : A -> A -> Z) (x : A) (l : list A)
    : list A :=
  match l with
  | [] => [x]
  | y :: t => if cmp x y <=? 0 then x :: l else y :: insertSorted cmp x t
  end.

Definition Array_sort {A : Type} (cmp : A -> A -> Z) (l : list A) : list A :=
  fold_right (insertSorted cmp) [] l.

(** A comparator is consistent when exchanging its arguments flips the
    sign of its result and "not greater" is transitive. *)
Definition consistent {A : Type} (cmp : A -> A -> Z) : Prop :=
  (forall a b, Z.sgn (cmp a b) = - Z.sgn (cmp b a)) /\
  (forall a b c, cmp a b <= 0 -> cmp b c <= 0 -> cmp a c <= 0).

(** [order]: the rank of a difficulty in the comparator. *)
Definition order (k : DifficultyKey) : Z :=
  match k with easy => 0 | medium => 1 | hard => 2 end.

(** What [handleSaveWin] reads from the host: [Date.now()], the digits of
    [Math.random().toString(16).slice(2)] and [new Date().toISOString()]. *)
Record Host : Type := {
  Date_now : Z;
  randomHex : jsstring;
  toISOString : jsstring
}.

Section Leaderboard.

(** [String.prototype.localeCompare]: the collation of the host. *)
Variable localeCompare : jsstring -> jsstring -> Z.

(** The comparator of [sortLeaderboard]. *)
Definition compareEntries (a b : LeaderboardEntry) : Z :=
  if negb (DifficultyKey_eqb (Entry.difficulty a) (Entry.difficulty b)) then
    order (Entry.difficulty a) - order (Entry.difficulty b)
  else if negb (Entry.attempts a =? Entry.attempts b) then
    Entry.attempts a - Entry.attempts b
  else localeCompare (Entry.dateISO b) (Entry.dateISO a).

Definition sortLeaderboard (entries : list LeaderboardEntry)
    : list LeaderboardEntry :=
  Array_sort compareEntries entries.

(** The entry that [handleSaveWin] builds. *)
Definition newEntry (h : Host) (s : AppState) (name : jsstring)
    (winAttempts : Z) : LeaderboardEntry :=
  {| Entry.id := Number_toString (Date_now h) ++ lit "_" ++ randomHex h;
     Entry.playerName := name;
     Entry.difficulty := key (difficulty s);
     Entry.attempts := winAttempts;
     Entry.rangeMax := max (difficulty s);
     Entry.dateISO := toISOString h |}.

(** [handleSaveWin] up to its [await]: the validation, the new
    collection and the request to persist it. *)
Definition handleSaveWin (h : Host) (s : AppState) : AppState * list Effect :=
  let winAttempts := pendingWinAttempts s in
  let name := trim (playerName s) in
  (match winAttempts with
   | None => setNameModalOpen false
   | Some w =>
       if isEmpty name then
         perform (Alert_alert (lit "Name required")
                    (lit "Please enter your name to save your score."))
       else
         let entry := newEntry h s name w in
         let next := firstn 50 (sortLeaderboard (entry :: leaderboard s)) in
         setLeaderboard next ;;
         perform (persistLeaderboard next)
   end) s.

(** [handleSaveWin] after its [await], for a win that was saved: the
    updates are applied to the state of that moment. *)
Definition handleSaveWin_resume : Update :=
  setNameModalOpen false ;;
  setPlayerName [] ;;
  setPendingWinAttempts None ;;
  setLeaderboardOpen true.

(** [handleClearLeaderboard] asks for a confirmation; the Clear button
    of that alert empties the collection and removes the stored key. *)
Definition handleClearLeaderboard : Update :=
  perform (Alert_alert (lit "Clear leaderboard?")
             (lit "This will remove all saved scores on this device.")).

Definition clearConfirmed : Update :=
  setLeaderboard [] ;; perform AsyncStorage_removeItem.

(** What can happen to the component: the presses and edits of the
    user, and the two asynchronous completions, the end of the write
    that [handleSaveWin] awaits and the start-up load that found a
    stored collection. *)
Inductive Event : Type :=
| GuessChanged (t : jsstring)
| GuessSubmitted
| DifficultyPressed (u : Random) (k : DifficultyKey)
| NewGamePressed (u : Random)
| NameChanged (t : jsstring)
| PromptDismissed
| SavePressed (h : Host)
| SaveSettled
| LeaderboardOpened
| LeaderboardClosed
| ClearPressed
| ClearConfirmed
| LeaderboardLoaded (entries : list LeaderboardEntry).

Definition handle (ev : Event) (s : AppState) : AppState * list Effect :=
  match ev with
  | GuessChanged t => onChangeText t s
  | GuessSubmitted => handleSubmitGuess s
  | DifficultyPressed u k => pressDifficulty u k s
  | NewGamePressed u => pressNewGame u s
  | NameChanged t => setPlayerName t s
  | PromptDismissed => setNameModalOpen false s
  | SavePressed h => handleSaveWin h s
  | SaveSettled => handleSaveWin_resume s
  | LeaderboardOpened => setLeaderboardOpen true s
  | LeaderboardClosed => setLeaderboardOpen false s
  | ClearPressed => handleClearLeaderboard s
  | ClearConfirmed => clearConfirmed s
  | LeaderboardLoaded entries => setLeaderboard entries s
  end.

Definition step (ev : Event) (s : AppState) : AppState := fst (handle ev s).

(** The states of the component: those of a first render and what the
    events make of them, in any order. *)
Inductive reachable : AppState -> Prop :=
| reachable_initial (u : Random) : reachable (initialState u)
| reachable_step (ev : Event) (s : AppState) :
    reachable s -> reachable (step ev s).

(** The ranking rule in the words of the specification: [a] ranks above
    [b] when its difficulty comes first in easy, medium, hard; or, the
    difficulty being the same, when it took fewer attempts; or, these
    being the same too, when its timestamp is the more recent one, which
    for [dateISO] strings is to collate after. *)
Definition spec_ranksAbove (a b : LeaderboardEntry) : Prop :=
  order (Entry.difficulty a) < order (Entry.difficulty b) \/
  (Entry.difficulty a = Entry.difficulty b /\
   (Entry.attempts a < Entry.attempts b \/
    (Entry.attempts a = Entry.attempts b /\
     0 < localeCompare (Entry.dateISO a) (Entry.dateISO b)))).

(** Two entries that the rule does not tell apart. *)
Definition spec_tied (a b : LeaderboardEntry) : Prop :=
  Entry.difficulty a = Entry.difficulty b /\
  Entry.attempts a = Entry.attempts b /\
  localeCompare (Entry.dateISO a) (Entry.dateISO b) = 0.

End Leaderboard.

(** The code-unit order of two strings, as a comparator: the order of
    [localeCompare] on the strings that [toISOString] returns. *)
Fixpoint codeUnitCompare (a b : jsstring) : Z :=
  match a, b with
  | [], [] => 0
  | [], _ :: _ => -1
  | _ :: _, [] => 1
  | x :: a', y :: b' =>
      match N.compare x y with
      | Lt => -1
      | Gt => 1
      | Eq => codeUnitCompare a' b'
      end
  end.

(** ** JSON.parse and the loading of the leaderboard *)

Module JSON.

Inductive value : Type :=
| Null
| Bool (b : bool)
| Num (n : number)
| Str (s : jsstring)
| Arr (elements : list value)
| Obj (members : list (jsstring * value)).

(** The outcome of a parser on a string: a result and the rest of the
    string, a syntax error, or recursion deeper than the fuel given. *)
Inductive parsed (A : Type) : Type :=
| Ok (a : A) (rest : jsstring)
| SyntaxError
| OutOfFuel.
Arguments Ok {A} a rest.
Arguments SyntaxError {A}.
Arguments OutOfFuel {A}.

(** JSON white space: TAB, LF, CR and SP. *)
Definition isWs (c : N) : bool :=
  (N.eqb c 9 || N.eqb c 10 || N.eqb c 13 || N.eqb c 32)%N.

Fixpoint skipWs (s : jsstring) : jsstring :=
  match s with
  | [] => []
  | c :: r => if isWs c then skipWs r else s
  end.

Fixpoint stripPrefix (p s : jsstring) : option jsstring :=
  match p, s with
  | [], _ => Some s
  | x :: p', y :: s' => if N.eqb x y then stripPrefix p' s' else None
  | _ :: _, [] => None
  end.

Definition keyword {A : Type} (word : string) (a : A) (s : jsstring) : parsed A :=
  match stripPrefix (lit word) s with
  | Some rest => Ok a rest
  | None => SyntaxError
  end.

(** The code unit of a one-letter escape. *)
Definition escape (c : N) : option N :=
  (match c with
   | 34 => Some 34 | 92 => Some 92 | 47 => Some 47
   | 98 => Some 8 | 102 => Some 12 | 110 => Some 10
   | 114 => Some 13 | 116 => Some 9
   | _ => None
   end)%N.

(** A string after its opening quote, up to the closing one. *)
Fixpoint stringBody (s : jsstring) : parsed jsstring :=
  match s with
  | [] => SyntaxError
  | c :: r =>
      if N.eqb c 34 then Ok [] r
      else if N.eqb c 92 then
        match r with
        | [] => SyntaxError
        | e :: r' =>
            if N.eqb e 117 then
              match r' with
              | h1 :: h2 :: h3 :: h4 :: r'' =>
                  if forallb isHexDigit [h1; h2; h3; h4] then
                    match stringBody r'' with
                    | Ok t rest =>
                        Ok (Z.to_N (digitsValue 16 [h1; h2; h3; h4]) :: t) rest
                    | other => other
                    end
                  else SyntaxError
              | _ => SyntaxError
              end
            else
              match escape e with
              | None => SyntaxError
              | Some u =>
                  match stringBody r' with
                  | Ok t rest => Ok (u :: t) rest
                  | other => other
                  end
              end
        end
      else if (c <? 32)%N then SyntaxError
      else
        match stringBody r with
        | Ok t rest => Ok (c :: t) rest
        | other => other
        end
  end.

(** A number: [-? (0 | [1-9] digits) (. digits+)? ([eE] [+-]? digits+)?]. *)
Definition numberToken (s : jsstring) : parsed number :=
  let '(neg, r0) :=
    match s with
    | c :: r => if N.eqb c 45 then (true, r) else (false, s)
    | [] => (false, s)
    end in
  let '(ip, r1) := span isDigit r0 in
  let leadingZero :=
    match ip with z :: _ :: _ => N.eqb z 48 | _ => false end in
  if isEmpty ip || leadingZero then SyntaxError
  else
    let fraction :=
      match r1 with
      | c :: r =>
          if N.eqb c 46 then
            let '(fp, r2) := span isDigit r in
            if isEmpty fp then None else Some (fp, r2)
          else Some ([], r1)
      | [] => Some ([], r1)
      end in
    match fraction with
    | None => SyntaxError
    | Some (fp, r2) =>
        let exponent :=
          match r2 with
          | c :: r =>
              if (N.eqb c 101 || N.eqb c 69)%N then
                let '(eneg, r') := splitSign r in
                let '(ds, r3) := span isDigit r' in
                if isEmpty ds then None
                else Some (if eneg then - digitsValue 10 ds
                           else digitsValue 10 ds, r3)
              else Some (0, r2)
          | [] => Some (0, r2)
          end in
        match exponent with
        | None => SyntaxError
        | Some (x, r3) =>
            Ok (roundDecimal neg (digitsValue 10 (ip ++ fp))
                  (x - Z.of_nat (List.length fp))) r3
        end
    end.

(** A value, the elements of an array after its first bracket and the
    members of an object after its first brace.  Every nested call takes
    one unit of [fuel]. *)
Fixpoint parseValue (fuel : nat) (s : jsstring) : parsed value :=
  match fuel with
  | O => OutOfFuel
  | S f =>
      match skipWs s with
      | [] => SyntaxError
      | c :: r =>
          if N.eqb c 110 then keyword "null" Null (c :: r)
          else if N.eqb c 116 then keyword "true" (Bool true) (c :: r)
          else if N.eqb c 102 then keyword "false" (Bool false) (c :: r)
          else if N.eqb c 34 then
            match stringBody r with
            | Ok t rest => Ok (Str t) rest
            | SyntaxError => SyntaxError
            | OutOfFuel => OutOfFuel
            end
          else if N.eqb c 91 then
            match skipWs r with
            | [] => SyntaxError
            | c1 :: rest =>
                if N.eqb c1 93 then Ok (Arr []) rest
                else
                  match parseElements f (c1 :: rest) with
                  | Ok vs rest' => Ok (Arr vs) rest'
                  | SyntaxError => SyntaxError
                  | OutOfFuel => OutOfFuel
                  end
            end
          else if N.eqb c 123 then
            match skipWs r with
            | [] => SyntaxError
            | c1 :: rest =>
                if N.eqb c1 125 then Ok (Obj []) rest
                else
                  match parseMembers f (c1 :: rest) with
                  | Ok ms rest' => Ok (Obj ms) rest'
                  | SyntaxError => SyntaxError
                  | OutOfFuel => OutOfFuel
                  end
            end
          else if N.eqb c 45 || isDigit c then
            match numberToken (c :: r) with
            | Ok n rest => Ok (Num n) rest
            | SyntaxError => SyntaxError
            | OutOfFuel => OutOfFuel
            end
          else SyntaxError
      end
  end
with parseElements (fuel : nat) (s : jsstring) : parsed (list value) :=
  match fuel with
  | O => OutOfFuel
  | S f =>
      match parseValue f s with
      | Ok v r =>
          match skipWs r with
          | c :: r' =>
              if N.eqb c 93 then Ok [v] r'
              else if N.eqb c 44 then
                match parseElements f r' with
                | Ok vs rest => Ok (v :: vs) rest
                | other => other
                end
              else SyntaxError
          | [] => SyntaxError
          end
      | SyntaxError => SyntaxError
      | OutOfFuel => OutOfFuel
      end
  end
with parseMembers (fuel : nat) (s : jsstring) : parsed (list (jsstring * value)) :=
  match fuel with
  | O => OutOfFuel
  | S f =>
      match skipWs s with
      | [] => SyntaxError
      | q :: r =>
          if negb (N.eqb q 34) then SyntaxError
          else
            match stringBody r with
            | Ok k r1 =>
                match skipWs r1 with
                | [] => SyntaxError
                | colon :: r2 =>
                    if negb (N.eqb colon 58) then SyntaxError
                    else
                      match parseValue f r2 with
                      | Ok v r3 =>
                          match skipWs r3 with
                          | c :: r4 =>
                              if N.eqb c 125 then Ok [(k, v)] r4
                              else if N.eqb c 44 then
                                match parseMembers f r4 with
                                | Ok ms rest => Ok ((k, v) :: ms) rest
                                | other => other
                                end
                              else SyntaxError
                          | [] => SyntaxError
                          end
                      | SyntaxError => SyntaxError
                      | OutOfFuel => OutOfFuel
                      end
                end
            | SyntaxError => SyntaxError
            | OutOfFuel => OutOfFuel
            end
      end
  end.

(** A JSON text: one value between white space, and nothing after it. *)
Definition parseText (fuel : nat) (text : jsstring) : parsed value :=
  match parseValue fuel text with
  | Ok v rest => if isEmpty (skipWs rest) then Ok v [] else SyntaxError
  | other => other
  end.

(** [JSON.parse(text)]; [None] is the SyntaxError it throws.  Two units
    of fuel for each code unit are enough for every text
    ([parseText_fuel] below). *)
Definition parse (text : jsstring) : option value :=
  match parseText (2 * List.length text + 2) text with
  | Ok v _ => Some v
  | _ => None
  end.

Definition Array_isArray (v : value) : bool :=
  match v with Arr _ => true | _ => false end.

End JSON.

(** What [await AsyncStorage.getItem(key)] gives: it throws, or it
    returns the stored string or [null]. *)
Inductive GetItem : Type :=
| Rejected
| Resolved (raw : option jsstring).

(** The effect that loads the leaderboard at start-up, as a function of
    the outcome of [getItem] and of the collection in the state; its
    result is the collection after the effect.  The cast
    [as LeaderboardEntry[]] checks nothing at run time: [setLeaderboard]
    receives the parsed array with whatever elements it has, so the
    collection is one of JSON values here. *)
Definition loadLeaderboard (got : GetItem) (current : list JSON.value)
    : list JSON.value :=
  match got with
  | Rejected => current
  | Resolved None => current
  | Resolved (Some raw) =>
      if isEmpty raw then current
      else
        match JSON.parse raw with
        | None => current
        | Some parsed =>
            match parsed with
            | JSON.Arr elements => elements
            | _ => current
            end
        end
  end.

(** [useState<LeaderboardEntry[]>([])]: the collection before the effect. *)
Definition initialLeaderboard : list JSON.value := [].

(** The specification's [load()]: the collection once the start-up
    effect has run. *)
Definition load (got : GetItem) : list JSON.value :=
  loadLeaderboard got initialLeaderboard.

(** ** Notions of the specification *)

(** The round invariant: the attempts are within the limit of the
    difficulty, and strictly below it while the round is open. *)
Definition round_ok (s : AppState) : Prop :=
  0 <= attempts s <= maxAttempts (difficulty s) /\
  (gameOver s = false -> attempts s < maxAttempts (difficulty s)).

(** The name prompt is open only for a pending win, and a pending win
    is that of the round on display: it has its attempts, one at least,
    and the round is over. *)
Definition prompt_ok (s : AppState) : Prop :=
  (nameModalOpen s = true -> pendingWinAttempts s <> None) /\
  (forall w, pendingWinAttempts s = Some w ->
             w = attempts s /\ 1 <= w /\ gameOver s = true).

(** Following the words of the specification, a base-10 integer
    representation is read as an optional sign and one decimal digit or
    more; [base10Value] is the integer it denotes. *)
Definition spec_isBase10Integer (t : jsstring) : bool :=
  let '(_, ds) := splitSign t in negb (isEmpty ds) && forallb isDigit ds.

Definition spec_base10Value (t : jsstring) : Z :=
  let '(neg, ds) := splitSign t in
  if neg then - digitsValue 10 ds else digitsValue 10 ds.


(** The shape of a persisted entry in the words of the specification:
    an object with the strings [id], [playerName] and [dateISO], a
    [difficulty] among the three keys, an integer [attempts] of at
    least 1 and an integer [rangeMax]. *)
Definition getMember (k : string) (v : JSON.value) : option JSON.value :=
  match v with
  | JSON.Obj members =>
      match find (fun m => streq (fst m) (lit k)) (rev members) with
      | Some m => Some (snd m)
      | None => None
      end
  | _ => None
  end.

Definition isStr (o : option JSON.value) : bool :=
  match o with Some (JSON.Str _) => true | _ => false end.

Definition isInt (o : option JSON.value) : bool :=
  match o with Some (JSON.Num n) => Number_isInteger n | _ => false end.

Definition spec_entryShaped (v : JSON.value) : bool :=
  isStr (getMember "id" v) && isStr (getMember "playerName" v) &&
  isStr (getMember "dateISO" v) &&
  match getMember "difficulty" v with
  | Some (JSON.Str k) =>
      streq k (lit "easy") || streq k (lit "medium") || streq k (lit "hard")
  | _ => false
  end &&
  match getMember "attempts" v with
  | Some (JSON.Num n) => Number_isInteger n && (1 <=? intOf n)
  | _ => false
  end &&
  isInt (getMember "rangeMax" v).

(** ** Scenarios *)

(** The draw 0.3125 of [Math.random()], which makes 7 the target of an
    easy round, and that round just started. *)
Definition aDraw : Random := {| mant := 5; expo := -4 |}.

Definition easyRound : AppState := mounted aDraw aDraw.

(** The easy round after five wrong guesses: one attempt is left. *)
Definition lastAttempt : AppState :=
  submitGuesses [lit "1"; lit "2"; lit "3"; lit "4"; lit "5"] easyRound.

(** A medium round just started with the same draw: its target is 16. *)
Definition mediumRound : AppState :=
  fst (pressDifficulty aDraw medium easyRound).

Definition Ann : LeaderboardEntry :=
  {| Entry.id := lit "1714557600000_3fa9c"; Entry.playerName := lit "Ann";
     Entry.difficulty := hard; Entry.attempts := 4; Entry.rangeMax := 100;
     Entry.dateISO := lit "2024-05-01T10:00:00.000Z" |}.

Definition Bo : LeaderboardEntry :=
  {| Entry.id := lit "1714644000000_77b1"; Entry.playerName := lit "Bo";
     Entry.difficulty := easy; Entry.attempts := 2; Entry.rangeMax := 20;
     Entry.dateISO := lit "2024-05-02T10:00:00.000Z" |}.

Definition Cy : LeaderboardEntry :=
  {| Entry.id := lit "1714730400000_c02d"; Entry.playerName := lit "Cy";
     Entry.difficulty := easy; Entry.attempts := 5; Entry.rangeMax := 20;
     Entry.dateISO := lit "2024-05-03T10:00:00.000Z" |}.

(** As many attempts as Cy on the same difficulty, a day later. *)
Definition Dee : LeaderboardEntry :=
  {| Entry.id := lit "1714816800000_01e"; Entry.playerName := lit "Dee";
     Entry.difficulty := easy; Entry.attempts := 5; Entry.rangeMax := 20;
     Entry.dateISO := lit "2024-05-04T10:00:00.000Z" |}.

Definition host : Host :=
  {| Date_now := 1717236000000; randomHex := lit "9be41";
     toISOString := lit "2024-06-01T10:00:00.000Z" |}.

(** An older win on easy, in [a] attempts, at the time [date]. *)
Definition oldEntry (a : Z) (date : jsstring) (i : nat) : LeaderboardEntry :=
  {| Entry.id := Number_toString (Z.of_nat i) ++ lit "_old";
     Entry.playerName := lit "Old"; Entry.difficulty := easy;
     Entry.attempts := a; Entry.rangeMax := 20; Entry.dateISO := date |}.

(** The easy round won on its sixth attempt, the player having typed
    [name] in the prompt, with the collection [board]. *)
Definition wonWith (name : jsstring) (board : list LeaderboardEntry)
    : AppState :=
  fst ((setPlayerName name ;; setLeaderboard board)
         (submitGuess (lit "7") lastAttempt)).

(** Sixty wins in one attempt, and fifty wins that the rule does not
    tell from the one [host] dates. *)
Definition sixtyBetter : list LeaderboardEntry :=
  map (oldEntry 1 (lit "2024-01-01T00:00:00.000Z")) (seq 0 60).

Definition fiftyTied : list LeaderboardEntry :=
  map (oldEntry 6 (toISOString host)) (seq 0 50).

(** ** Further notions *)

(** The values that [Math.random()] can return: the doubles that are at
    least 0 and below 1, of 53 significant bits at most. *)
Definition isUnitDouble (u : Random) : bool :=
  (0 <=? mant u) && (mant u <? 2 ^ 53) &&
  (if 0 <=? expo u then mant u =? 0 else mant u <? 2 ^ (- expo u)).

(** An event whose draw, if it has one, is a value of [Math.random()]. *)
Definition wellDrawn (ev : Event) : bool :=
  match ev with
  | DifficultyPressed u _ => isUnitDouble u
  | NewGamePressed u => isUnitDouble u
  | _ => true
  end.

(** The component after a sequence of events. *)
Definition run (localeCompare : jsstring -> jsstring -> Z)
    (events : list Event) (s : AppState) : AppState :=
  fold_left (fun st ev => step localeCompare ev st) events s.

(** The target is in the range of the difficulty on display. *)
Definition target_ok (s : AppState) : Prop :=
  min (difficulty s) <= target s <= max (difficulty s).

(** The integer that the digits [d] denote after the digits of [acc]. *)
Fixpoint uintValue (d : Decimal.uint) (acc : Z) : Z :=
  match d with
  | Decimal.Nil => acc
  | Decimal.D0 l => uintValue l (acc * 10 + 0)
  | Decimal.D1 l => uintValue l (acc * 10 + 1)
  | Decimal.D2 l => uintValue l (acc * 10 + 2)
  | Decimal.D3 l => uintValue l (acc * 10 + 3)
  | Decimal.D4 l => uintValue l (acc * 10 + 4)
  | Decimal.D5 l => uintValue l (acc * 10 + 5)
  | Decimal.D6 l => uintValue l (acc * 10 + 6)
  | Decimal.D7 l => uintValue l (acc * 10 + 7)
  | Decimal.D8 l => uintValue l (acc * 10 + 8)
  | Decimal.D9 l => uintValue l (acc * 10 + 9)
  end.

(** A row of the leaderboard as [handleSaveWin] makes them: a name that
    is trimmed and not empty, the attempts of a won round of its
    difficulty, and the upper bound of that difficulty. *)
Definition entry_ok (e : LeaderboardEntry) : Prop :=
  isEmpty (Entry.playerName e) = false /\
  trim (Entry.playerName e) = Entry.playerName e /\
  1 <= Entry.attempts e <= maxAttempts (configOf (Entry.difficulty e)) /\
  Entry.rangeMax e = max (configOf (Entry.difficulty e)).

(** A collection as [handleSaveWin] leaves them: such rows, in rank
    order, 50 at most. *)
Definition board_ok (localeCompare : jsstring -> jsstring -> Z)
    (l : list LeaderboardEntry) : Prop :=
  Forall entry_ok l /\
  StronglySorted (fun a b => compareEntries localeCompare a b <= 0) l /\
  (List.length l <= 50)%nat.

(** An event that, if it is the end of the load, brings such a
    collection. *)
Definition wellLoaded (localeCompare : jsstring -> jsstring -> Z)
    (ev : Event) : Prop :=
  match ev with
  | LeaderboardLoaded entries => board_ok localeCompare entries
  | _ => True
  end.

(** ** JSON.stringify and the stored collection *)

(** [QuoteJSONString] (ECMA-262, 25.5.2.3): the seven escapes of two
    code units, [\uXXXX] in lower-case hexadecimal for the other code
    units below SP and for a surrogate that is not half of a pair, and
    every other code unit as it is. *)
Definition isHighSurrogate (c : N) : bool := ((55296 <=? c) && (c <=? 56319))%N.
Definition isLowSurrogate (c : N) : bool := ((56320 <=? c) && (c <=? 57343))%N.

Definition hexDigitChar (d : N) : N := (if d <? 10 then 48 + d else 87 + d)%N.

Definition unicodeEscape (c : N) : jsstring :=
  [92; 117; hexDigitChar (c / 4096 mod 16); hexDigitChar (c / 256 mod 16);
   hexDigitChar (c / 16 mod 16); hexDigitChar (c mod 16)]%N.

Definition shortEscape (c : N) : option N :=
  (if c =? 8 then Some 98 else if c =? 9 then Some 116
   else if c =? 10 then Some 110 else if c =? 12 then Some 102
   else if c =? 13 then Some 114 else if c =? 34 then Some 34
   else if c =? 92 then Some 92 else None)%N.

Definition quoteUnit (c : N) : jsstring :=
  match shortEscape c with
  | Some e => [92%N; e]
  | None =>
      if (c <? 32)%N || isHighSurrogate c || isLowSurrogate c
      then unicodeEscape c else [c]
  end.

Fixpoint quoteBody (s : jsstring) : jsstring :=
  match s with
  | [] => []
  | c :: r =>
      match r with
      | d :: r' =>
          if isHighSurrogate c && isLowSurrogate d
          then c :: d :: quoteBody r'
          else quoteUnit c ++ quoteBody r
      | [] => quoteUnit c
      end
  end.

Definition QuoteJSONString (s : jsstring) : jsstring :=
  34%N :: quoteBody s ++ [34%N].

(** The string of a difficulty key. *)
Definition keyName (k : DifficultyKey) : jsstring :=
  match k with
  | easy => lit "easy"
  | medium => lit "medium"
  | hard => lit "hard"
  end.

(** A member of an object: the quoted key, a colon and the value. *)
Definition member (name : string) (value : jsstring) : jsstring :=
  QuoteJSONString (lit name) ++ 58%N :: value.

(** [JSON.stringify] of an entry: its members in the order in which
    [handleSaveWin] writes them, between braces and separated by
    commas. *)
Definition stringifyEntry (e : LeaderboardEntry) : jsstring :=
  123%N ::
  member "id" (QuoteJSONString (Entry.id e)) ++ 44%N ::
  member "playerName" (QuoteJSONString (Entry.playerName e)) ++ 44%N ::
  member "difficulty" (QuoteJSONString (keyName (Entry.difficulty e))) ++ 44%N ::
  member "attempts" (Number_toString (Entry.attempts e)) ++ 44%N ::
  member "rangeMax" (Number_toString (Entry.rangeMax e)) ++ 44%N ::
  member "dateISO" (QuoteJSONString (Entry.dateISO e)) ++ [125%N].

Fixpoint joinComma (l : list jsstring) : jsstring :=
  match l with
  | [] => []
  | x :: r => match r with [] => x | _ :: _ => x ++ 44%N :: joinComma r end
  end.

(** [JSON.stringify(next)] for a collection of entries. *)
Definition JSON_stringify (entries : list LeaderboardEntry) : jsstring :=
  91%N :: joinComma (map stringifyEntry entries) ++ [93%N].

(** The Number of an integer. *)
Definition ofInt (z : Z) : number := round64 (z <? 0) (Z.abs z) 1.

(** An entry as a JavaScript value. *)
Definition entryValue (e : LeaderboardEntry) : JSON.value :=
  JSON.Obj [(lit "id", JSON.Str (Entry.id e));
            (lit "playerName", JSON.Str (Entry.playerName e));
            (lit "difficulty", JSON.Str (keyName (Entry.difficulty e)));
            (lit "attempts", JSON.Num (ofInt (Entry.attempts e)));
            (lit "rangeMax", JSON.Num (ofInt (Entry.rangeMax e)));
            (lit "dateISO", JSON.Str (Entry.dateISO e))].

(** The code units that follow a value in an array or an object: the
    comma, the closing brace and the closing bracket. *)
Definition separator (c : N) : Prop := c = 44%N \/ c = 125%N \/ c = 93%N.

(** The integers that a Number holds exactly and prints in full. *)
Definition safeInteger (z : Z) : Prop := Z.abs z < 2 ^ 53.

Definition safeEntry (e : LeaderboardEntry) : Prop :=
  safeInteger (Entry.attempts e) /\ safeInteger (Entry.rangeMax e).

(** The member [k] of a value when it is a string, and when it is an
    integer. *)
Definition stringMember (k : string) (v : JSON.value) : option jsstring :=
  match getMember k v with Some (JSON.Str s) => Some s | _ => None end.

Definition integerMember (k : string) (v : JSON.value) : option Z :=
  match getMember k v with
  | Some (JSON.Num n) =>
      if Number_isFinite n && Number_isInteger n then Some (intOf n) else None
  | _ => None
  end.

(** A loaded value whose members read as the fields of the entry [e]. *)
Definition represents (v : JSON.value) (e : LeaderboardEntry) : Prop :=
  stringMember "id" v = Some (Entry.id e) /\
  stringMember "playerName" v = Some (Entry.playerName e) /\
  stringMember "difficulty" v = Some (keyName (Entry.difficulty e)) /\
  integerMember "attempts" v = Some (Entry.attempts e) /\
  integerMember "rangeMax" v = Some (Entry.rangeMax e) /\
  stringMember "dateISO" v = Some (Entry.dateISO e).

(** What AsyncStorage holds under the key of the leaderboard, if
    anything. *)
Definition Storage : Type := option jsstring.

(** [getItem] when it does not throw. *)
Definition AsyncStorage_getItem (st : Storage) : GetItem := Resolved st.

(** The storage once the promise of an effect is fulfilled:
    [persistLeaderboard(next)] sets the key to [JSON.stringify(next)],
    [removeItem] removes it, the other effects leave the storage alone. *)
Definition settle (st : Storage) (e : Effect) : Storage :=
  match e with
  | persistLeaderboard next => Some (JSON_stringify next)
  | AsyncStorage_removeItem => None
  | _ => st
  end.

Definition settleAll (effects : list Effect) (st : Storage) : Storage :=
  fold_left settle effects st.

(** An effect that does not write to the storage. *)
Definition quiet (e : Effect) : bool :=
  match e with
  | persistLeaderboard _ | AsyncStorage_removeItem => false
  | _ => true
  end.

(** The round on display: the difficulty, the target, the attempts,
    whether it is over, and the hint. *)
Definition roundOf (s : AppState) : DifficultyKey * Z * Z * bool * jsstring :=
  (difficultyKey s, target s, attempts s, gameOver s, hint s).

(** The events that do not start a round. *)
Definition keepsRound (ev : Event) : bool :=
  match ev with
  | DifficultyPressed _ _ | NewGamePressed _ => false
  | _ => true
  end.

(** * Properties *)

(** ** The built-ins and the scenarios of the specification, evaluated *)

Ltac evaluated :=
  repeat match goal with |- _ /\ _ => split end; vm_compute; reflexivity.

Example trim_examples :
  trim (lit "  42 ") = lit "42" /\
  trim (9 :: 160 :: 8232 :: lit "a b" ++ [65279; 12288; 10])%N = lit "a b" /\
  trim (lit "   ") = [].
Proof. evaluated. Qed.

(** [Number] rounds to the nearest double: [0.1] is
    [7205759403792794 * 2^-56], [2^53 + 1] is [2^53], the largest
    double is finite and the next decimal is not. *)
Example Number_examples :
  Number (lit "0.1") = Finite 7205759403792794 (-56) /\
  Number (lit "9007199254740993") = Finite (2 ^ 52) 1 /\
  Number (lit "1.7976931348623157e308") = Finite (2 ^ 53 - 1) 971 /\
  Number (lit "1.7976931348623159e308") = Infinity false /\
  Number (lit "5e-324") = Finite 1 (-1074) /\
  Number (lit "-Infinity") = Infinity true /\
  Number (lit "0b101") = Number (lit "5") /\
  Number (lit ".5e1") = Number (lit "5") /\
  Number (lit "12px") = NaN /\
  Number (lit "1 2") = NaN /\
  Number (lit "-0x10") = NaN /\
  Number (lit "") = Finite 0 0.
Proof. evaluated. Qed.

Example parseGuess_examples :
  parseGuess (lit "7") = Some 7 /\
  parseGuess (lit " 007 ") = Some 7 /\
  parseGuess (lit "-3") = Some (-3) /\
  parseGuess (lit "7.5") = None /\
  parseGuess (lit "seven") = None /\
  parseGuess (lit "") = None /\
  parseGuess (lit "Infinity") = None.
Proof. evaluated. Qed.

Example JSON_parse_examples :
  JSON.parse (lit "[1, [true, null], {}]")
  = Some (JSON.Arr [JSON.Num (Number (lit "1"));
                    JSON.Arr [JSON.Bool true; JSON.Null]; JSON.Obj []]) /\
  JSON.parse (34 :: lit "a\u0041\n" ++ [34])%N
  = Some (JSON.Str [97; 65; 10]%N) /\
  JSON.parse (lit "{" ++ [34; 105; 100; 34]%N ++ lit ": -1.5e2}")
  = Some (JSON.Obj [(lit "id", JSON.Num (Number (lit "-150")))]) /\
  JSON.parse (lit "[1,]") = None /\
  JSON.parse (lit "01") = None /\
  JSON.parse (lit "[] []") = None /\
  JSON.parse (lit "nul") = None /\
  JSON.parse [] = None.
Proof. evaluated. Qed.

(** The draws next to 0 and to 1 give the two ends of the range. *)
Example randomIntInclusive_examples :
  randomIntInclusive {| mant := 0; expo := 0 |} 1 20 = 1 /\
  randomIntInclusive {| mant := 2 ^ 53 - 1; expo := -53 |} 1 20 = 20 /\
  randomIntInclusive {| mant := 2 ^ 53 - 1; expo := -53 |} 1 100 = 100 /\
  randomIntInclusive aDraw 1 20 = 7 /\
  randomIntInclusive aDraw 1 50 = 16.
Proof. evaluated. Qed.

(** Easy, target 7: the guesses 10, 5 and 7 are answered Lower, Higher
    and the win in three attempts. *)
Example easy_scenario :
  target easyRound = 7 /\
  hint easyRound = lit "Guess a number between 1 and 20." /\
  hint (submitGuesses [lit "10"] easyRound) = lit "Lower." /\
  hint (submitGuesses [lit "10"; lit "5"] easyRound) = lit "Higher." /\
  hint (submitGuesses [lit "10"; lit "5"; lit "7"] easyRound)
  = lit "Correct! You guessed it in 3 attempts." /\
  pendingWinAttempts (submitGuesses [lit "10"; lit "5"; lit "7"] easyRound)
  = Some 3.
Proof. evaluated. Qed.

(** Medium, eight wrong guesses: the eighth loses the round and gives
    the target, and a ninth changes nothing. *)
Example medium_scenario :
  let guesses := map lit ["1"; "2"; "3"; "4"; "5"; "6"; "7"; "8"]%string in
  target mediumRound = 16 /\
  gameOver (submitGuesses (firstn 7 guesses) mediumRound) = false /\
  gameOver (submitGuesses guesses mediumRound) = true /\
  attempts (submitGuesses guesses mediumRound) = 8 /\
  hint (submitGuesses guesses mediumRound)
  = lit "Game over. The number was 16." /\
  handleSubmitGuess
    (fst (setGuessText (lit "16") (submitGuesses guesses mediumRound)))
  = (fst (setGuessText (lit "16") (submitGuesses guesses mediumRound)), []).
Proof. cbv zeta. evaluated. Qed.

(** ** The round engine *)

Ltac zbool :=
  repeat match goal with
  | |- context [?a <? ?b] => destruct (Z.ltb_spec a b); try lia
  | |- context [?a <=? ?b] => destruct (Z.leb_spec a b); try lia
  | |- context [?a =? ?b] => destruct (Z.eqb_spec a b); try lia
  end.

Lemma configOf_maxAttempts_pos (k : DifficultyKey) :
  0 < maxAttempts (configOf k).
Proof. destruct k; reflexivity. Qed.

Lemma submit_when_over (s : AppState) :
  gameOver s = true -> handleSubmitGuess s = (s, []).
Proof. intros H. unfold handleSubmitGuess. rewrite H. reflexivity. Qed.



Lemma in_range_test (s : AppState) (guess : Z) :
  min (difficulty s) <= guess <= max (difficulty s) ->
  (guess <? min (difficulty s)) || (max (difficulty s) <? guess) = false.
Proof. intros H. apply orb_false_iff. rewrite !Z.ltb_ge. lia. Qed.

Lemma submit_correct (s : AppState) (guess : Z) :
  gameOver s = false ->
  parseGuess (guessText s) = Some guess ->
  min (difficulty s) <= guess <= max (difficulty s) ->
  guess = target s ->
  handleSubmitGuess s =
  (setAttempts (attempts s + 1) ;;
   setGameOver true ;;
   setHint (lit "Correct! You guessed it in "
            ++ Number_toString (attempts s + 1) ++ lit " attempt"
            ++ (if attempts s + 1 =? 1 then [] else lit "s") ++ lit ".") ;;
   setPendingWinAttempts (Some (attempts s + 1)) ;;
   setNameModalOpen true ;;
   perform Keyboard_dismiss) s.
Proof.
  intros Hg Hp Hr Ht. unfold handleSubmitGuess.
  rewrite Hg, Hp, (in_range_test s guess Hr).
  apply Z.eqb_eq in Ht. cbv zeta. unfold andThen at 1. cbn.
  rewrite Ht. reflexivity.
Qed.

Lemma submit_wrong (s : AppState) (guess : Z) :
  gameOver s = false ->
  parseGuess (guessText s) = Some guess ->
  min (difficulty s) <= guess <= max (difficulty s) ->
  guess <> target s ->
  handleSubmitGuess s =
  (setAttempts (attempts s + 1) ;;
   (if guess <? target s then setHint (lit "Higher.")
    else setHint (lit "Lower.")) ;;
   if attemptLimitReached s (attempts s + 1) then
     setGameOver true ;;
     setHint (lit "Game over. The number was "
              ++ Number_toString (target s) ++ lit ".") ;;
     perform Keyboard_dismiss
   else done) s.
Proof.
  intros Hg Hp Hr Ht. unfold handleSubmitGuess.
  rewrite Hg, Hp, (in_range_test s guess Hr).
  apply Z.eqb_neq in Ht. cbv zeta. unfold andThen at 1. cbn.
  rewrite Ht. reflexivity.
Qed.

(** What one call of [handleSubmitGuess] can do to the round. *)
Lemma submit_round (s : AppState) :
  let s' := fst (handleSubmitGuess s) in
  difficultyKey s' = difficultyKey s /\
  target s' = target s /\
  ((attempts s' = attempts s /\ gameOver s' = gameOver s) \/
   (gameOver s = false /\ attempts s' = attempts s + 1 /\
    (gameOver s' = true \/ attempts s + 1 < maxAttempts (difficulty s)))).
Proof.
  unfold handleSubmitGuess.
  destruct (gameOver s) eqn:Hg; [cbn; auto|].
  destruct (parseGuess (guessText s)) as [guess|]; [|cbn; auto].
  destruct ((guess <? min (difficulty s)) || (max (difficulty s) <? guess));
    [cbn; auto|].
  cbv zeta.
  destruct (guess =? target s); [cbn; intuition auto|].
  destruct (attemptLimitReached s (attempts s + 1)) eqn:Hl;
    destruct (guess <? target s); cbn; intuition auto;
    right; intuition auto; right;
    unfold attemptLimitReached in Hl; apply Z.leb_gt in Hl; exact Hl.
Qed.

Lemma submitGuess_round (raw : jsstring) (s : AppState) :
  let s' := submitGuess raw s in
  difficultyKey s' = difficultyKey s /\
  target s' = target s /\
  ((attempts s' = attempts s /\ gameOver s' = gameOver s) \/
   (gameOver s = false /\ attempts s' = attempts s + 1 /\
    (gameOver s' = true \/ attempts s + 1 < maxAttempts (difficulty s)))).
Proof.
  unfold submitGuess.
  exact (submit_round (fst (setGuessText raw s))).
Qed.

Lemma submitGuess_preserves (raw : jsstring) (s : AppState) :
  round_ok s -> round_ok (submitGuess raw s).
Proof.
  intros [Hb Ho].
  destruct (submitGuess_round raw s) as (Hk & _ & H).
  unfold round_ok, difficulty in *. rewrite Hk.
  destruct H as [[Ha Hg] | (Hg & Ha & [Hg' | Hlt])].
  - rewrite Ha, Hg. auto.
  - specialize (Ho Hg). rewrite Ha, Hg'. split; [lia | discriminate].
  - rewrite Ha. split; [lia | intros _; lia].
Qed.

Lemma submitGuesses_cons (raw : jsstring) (inputs : list jsstring)
    (s : AppState) :
  submitGuesses (raw :: inputs) s = submitGuesses inputs (submitGuess raw s).
Proof. reflexivity. Qed.

Lemma submitGuesses_preserves (inputs : list jsstring) (s : AppState) :
  round_ok s -> round_ok (submitGuesses inputs s).
Proof.
  revert s. induction inputs as [|raw inputs IH]; intros s H; [exact H|].
  rewrite submitGuesses_cons. apply IH, submitGuess_preserves, H.
Qed.

Lemma submitGuesses_difficulty (inputs : list jsstring) (s : AppState) :
  difficulty (submitGuesses inputs s) = difficulty s /\
  target (submitGuesses inputs s) = target s.
Proof.
  revert s. induction inputs as [|raw inputs IH]; intros s; [auto|].
  rewrite submitGuesses_cons. destruct (IH (submitGuess raw s)) as [Hd Ht].
  destruct (submitGuess_round raw s) as (Hk & Ht' & _).
  rewrite Hd, Ht, Ht'. unfold difficulty. rewrite Hk. auto.
Qed.

Lemma submitGuesses_over (inputs : list jsstring) (s : AppState) :
  gameOver s = true ->
  attempts (submitGuesses inputs s) = attempts s /\
  gameOver (submitGuesses inputs s) = true.
Proof.
  revert s. induction inputs as [|raw inputs IH]; intros s H; [auto|].
  rewrite submitGuesses_cons.
  destruct (submitGuess_round raw s) as (_ & _ & [[Ha Hg] | (Hg & _)]).
  - rewrite H in Hg. destruct (IH _ Hg) as [IHa IHg].
    rewrite IHa, IHg, Ha. auto.
  - congruence.
Qed.

Lemma startNewGame_round (u : Random) (k : DifficultyKey) (s : AppState) :
  let s0 := fst (startNewGame u k s) in
  attempts s0 = 0 /\ gameOver s0 = false /\
  difficultyKey s0 = difficultyKey s /\
  target s0 = randomIntInclusive u (min (configOf k)) (max (configOf k)).
Proof. cbn. auto. Qed.

Lemma startNewGame_ok (u : Random) (k : DifficultyKey) (s : AppState) :
  round_ok (fst (startNewGame u k s)).
Proof.
  destruct (startNewGame_round u k s) as (Ha & Hg & Hk & _).
  unfold round_ok, difficulty. rewrite Ha, Hk.
  pose proof (configOf_maxAttempts_pos (difficultyKey s)). lia.
Qed.

(** C1. In a round started by [startNewGame], after any sequence of
    submitted guesses the attempts are between 0 and the [maxAttempts]
    of the active difficulty, the difficulty and the target are those
    the round started with, and once [gameOver] is true every further
    sequence of guesses leaves the attempts as they are and [gameOver]
    true. *)
Theorem round_invariant (u : Random) (k : DifficultyKey) (s : AppState)
    (inputs more : list jsstring) :
  let s0 := fst (startNewGame u k s) in
  let s1 := submitGuesses inputs s0 in
  0 <= attempts s1 <= maxAttempts (difficulty s1) /\
  difficulty s1 = difficulty s0 /\
  target s1 = target s0 /\
  (gameOver s1 = true ->
   attempts (submitGuesses more s1) = attempts s1 /\
   gameOver (submitGuesses more s1) = true).
Proof.
  intros s0 s1.
  pose proof (submitGuesses_preserves inputs s0 (startNewGame_ok u k s)) as [Hb _].
  destruct (submitGuesses_difficulty inputs s0) as [Hd Ht].
  repeat split; try apply Hb; auto.
  - apply submitGuesses_over; assumption.
  - apply submitGuesses_over; assumption.
Qed.

(** The state that [handleSubmitGuess] runs on in [submitGuess]. *)
Lemma submitGuess_unfold (raw : jsstring) (s : AppState) :
  exists s1,
    submitGuess raw s = fst (handleSubmitGuess s1) /\
    guessText s1 = raw /\ gameOver s1 = gameOver s /\
    attempts s1 = attempts s /\ target s1 = target s /\
    difficulty s1 = difficulty s /\
    pendingWinAttempts s1 = pendingWinAttempts s /\
    leaderboard s1 = leaderboard s.
Proof.
  exists (fst (setGuessText raw s)). repeat split; reflexivity.
Qed.

(** C3. In an open round, a guess that parses to an integer of the range
    and equals the target wins whatever the number of attempts already
    made, the last allowed one included: the attempts are incremented,
    [gameOver] is set, the win is recorded with the incremented count,
    the name prompt opens and the hint congratulates with that count. *)
Theorem correct_guess_wins (s : AppState) (raw : jsstring) (guess : Z) :
  gameOver s = false ->
  parseGuess raw = Some guess ->
  min (difficulty s) <= guess <= max (difficulty s) ->
  guess = target s ->
  let s' := submitGuess raw s in
  attempts s' = attempts s + 1 /\
  gameOver s' = true /\
  pendingWinAttempts s' = Some (attempts s + 1) /\
  nameModalOpen s' = true /\
  target s' = target s /\
  hint s' = lit "Correct! You guessed it in "
            ++ Number_toString (attempts s + 1) ++ lit " attempt"
            ++ (if attempts s + 1 =? 1 then [] else lit "s") ++ lit ".".
Proof.
  intros Hg Hp Hr Ht.
  destruct (submitGuess_unfold raw s)
    as (s1 & -> & Hraw & Hg1 & Ha1 & Ht1 & Hd1 & _).
  rewrite (submit_correct s1 guess); rewrite ?Hraw, ?Hg1, ?Hd1, ?Ht1; auto.
  rewrite Ha1. cbn. rewrite Ht1. repeat split; reflexivity.
Qed.

(** C4. In an open round, a guess of the range that is not the target
    and whose attempt reaches the limit of the difficulty loses the
    round: [gameOver] is set, no win is recorded and the hint gives the
    target. *)
Theorem last_wrong_guess_loses (s : AppState) (raw : jsstring) (guess : Z) :
  gameOver s = false ->
  parseGuess raw = Some guess ->
  min (difficulty s) <= guess <= max (difficulty s) ->
  guess <> target s ->
  maxAttempts (difficulty s) <= attempts s + 1 ->
  let s' := submitGuess raw s in
  attempts s' = attempts s + 1 /\
  gameOver s' = true /\
  pendingWinAttempts s' = pendingWinAttempts s /\
  target s' = target s /\
  hint s' = lit "Game over. The number was "
            ++ Number_toString (target s) ++ lit ".".
Proof.
  intros Hg Hp Hr Ht Hl.
  destruct (submitGuess_unfold raw s)
    as (s1 & -> & Hraw & Hg1 & Ha1 & Ht1 & Hd1 & Hp1 & _).
  rewrite (submit_wrong s1 guess); rewrite ?Hraw, ?Hg1, ?Hd1, ?Ht1; auto.
  unfold attemptLimitReached. rewrite Hd1, Ha1.
  apply Z.leb_le in Hl. rewrite Hl.
  destruct (guess <? target s); cbn; rewrite Ht1, Hp1; repeat split; reflexivity.
Qed.


(** ** Trimming and the parsing of a guess *)

Lemma trimStart_suffix (s : jsstring) :
  exists w, s = w ++ trimStart s.
Proof.
  induction s as [|c r [w IH]]; [exists []; reflexivity|].
  cbn. destruct (isWhiteSpace c).
  - exists (c :: w). cbn. f_equal. exact IH.
  - exists []. reflexivity.
Qed.

Lemma trimStart_head (s : jsstring) (c : N) (r : jsstring) :
  trimStart s = c :: r -> isWhiteSpace c = false.
Proof.
  induction s as [|d t IH]; cbn; [discriminate|].
  destruct (isWhiteSpace d) eqn:E; [exact IH|].
  intros H. injection H as -> _. exact E.
Qed.

Lemma trimStart_fixed (c : N) (r : jsstring) :
  isWhiteSpace c = false -> trimStart (c :: r) = c :: r.
Proof. intros H. cbn. rewrite H. reflexivity. Qed.

(** Trimming twice is trimming once. *)
Lemma trim_idempotent (s : jsstring) : trim (trim s) = trim s.
Proof.
  unfold trim, trimEnd.
  set (a := trimStart s).
  set (b := trimStart (rev a)).
  assert (Hb : trimStart b = b).
  { destruct b as [|c r] eqn:E; [reflexivity|].
    apply trimStart_fixed. exact (trimStart_head (rev a) c r E). }
  assert (Ha : trimStart (rev b) = rev b).
  { destruct (trimStart_suffix (rev a)) as [w Hw]. fold b in Hw.
    assert (Hra : a = rev b ++ rev w).
    { rewrite <- (rev_involutive a), Hw, rev_app_distr. reflexivity. }
    destruct (rev b) as [|c r] eqn:E; [reflexivity|].
    apply trimStart_fixed.
    apply (trimStart_head s c (r ++ rev w)). fold a. rewrite Hra. reflexivity. }
  rewrite Ha, rev_involutive, Hb. reflexivity.
Qed.

Lemma digit_cases (c : N) :
  isDigit c = true ->
  (c = 48 \/ c = 49 \/ c = 50 \/ c = 51 \/ c = 52 \/
   c = 53 \/ c = 54 \/ c = 55 \/ c = 56 \/ c = 57)%N.
Proof.
  unfold isDigit. rewrite andb_true_iff, !N.leb_le. lia.
Qed.

Ltac each_digit H :=
  apply digit_cases in H;
  repeat (destruct H as [H | H]; [subst|]); subst.

Lemma span_digits (ds : jsstring) :
  forallb isDigit ds = true -> span isDigit ds = (ds, []).
Proof.
  induction ds as [|c r IH]; cbn; [reflexivity|].
  rewrite andb_true_iff. intros [Hc Hr]. rewrite Hc, (IH Hr). reflexivity.
Qed.

Lemma digitValue_digit (c : N) :
  isDigit c = true -> 0 <= digitValue c <= 9.
Proof. intros H. each_digit H; cbn; lia. Qed.

Lemma digitsFold_nonneg (ds : jsstring) (acc : Z) :
  0 <= acc -> forallb isDigit ds = true ->
  0 <= fold_left (fun a c => a * 10 + digitValue c) ds acc.
Proof.
  revert acc. induction ds as [|c r IH]; cbn; intros acc Ha; [auto|].
  rewrite andb_true_iff. intros [Hc Hr]. apply IH; [|exact Hr].
  pose proof (digitValue_digit c Hc). lia.
Qed.

Lemma digitsValue_nonneg (ds : jsstring) :
  forallb isDigit ds = true -> 0 <= digitsValue 10 ds.
Proof. apply digitsFold_nonneg. lia. Qed.

(** *** Integers below [2^53] are Numbers *)

Lemma rne_div_one (x : Z) : rne_div x 1 = x.
Proof.
  unfold rne_div. rewrite Z.mod_1_r, Z.div_1_r. reflexivity.
Qed.

Lemma scale2_integer (v k : Z) :
  0 <= k -> scale2 v 1 (- k) = (v * 2 ^ k, 1) \/
            (k = 0 /\ scale2 v 1 (- k) = (v, 1 * 2 ^ 0)).
Proof.
  intros Hk. unfold scale2. destruct (Z.leb_spec 0 (- k)).
  - right. assert (k = 0) by lia. subst k. auto.
  - left. rewrite Z.opp_involutive. reflexivity.
Qed.

Lemma binade_integer (v : Z) :
  0 < v < 2 ^ 53 ->
  exists k, 0 <= k <= 52 /\ binade v 1 = - k /\ 2 ^ 52 <= v * 2 ^ k < 2 ^ 53.
Proof.
  intros [Hpos H1].
  pose proof (Z.log2_spec v Hpos) as [Hlo Hhi].
  pose proof (Z.log2_nonneg v) as HL0.
  assert (HL : Z.log2 v < 53) by (apply Z.log2_lt_pow2; assumption).
  unfold binade. change (Z.log2 1) with 0.
  set (L := Z.log2 v) in *.
  exists (52 - L).
  set (k := 52 - L).
  assert (Hk : 0 <= k) by (unfold k; lia).
  assert (He0 : L - 0 - 52 = - k) by (unfold k; lia).
  rewrite He0.
  assert (Hscaled : 2 ^ 52 <= v * 2 ^ k < 2 ^ 53).
  { replace (2 ^ 52) with (2 ^ L * 2 ^ k)
      by (rewrite <- Z.pow_add_r by lia; f_equal; unfold k; lia).
    replace (2 ^ 53) with (2 ^ Z.succ L * 2 ^ k)
      by (rewrite <- Z.pow_add_r by lia; f_equal; unfold k; lia).
    assert (0 < 2 ^ k) by (apply Z.pow_pos_nonneg; lia).
    split.
    - apply Z.mul_le_mono_nonneg_r; [lia | exact Hlo].
    - apply Z.mul_lt_mono_pos_r; [lia | exact Hhi]. }
  split; [unfold k; lia|]. split; [|exact Hscaled].
  destruct (scale2_integer v k Hk) as [-> | [-> ->]].
  - rewrite Z.mul_1_l.
    destruct (Z.ltb_spec (v * 2 ^ k) (2 ^ 52)); lia.
  - change (1 * 2 ^ 0 * 2 ^ 52) with (2 ^ 52).
    change (2 ^ 0) with 1 in Hscaled. rewrite Z.mul_1_r in Hscaled.
    destruct (Z.ltb_spec v (2 ^ 52)); lia.
Qed.

(** An integer of absolute value below [2^53] is its own Number. *)
Lemma round64_integer (neg : bool) (v : Z) :
  0 <= v < 2 ^ 53 ->
  Number_isFinite (round64 neg v 1) = true /\
  Number_isInteger (round64 neg v 1) = true /\
  intOf (round64 neg v 1) = if neg then - v else v.
Proof.
  intros [H0 H1]. unfold round64.
  destruct (Z.eqb_spec v 0) as [->|Hv].
  { cbn. destruct neg; auto. }
  destruct (binade_integer v) as (k & Hk & -> & Hs); [lia|].
  assert (Hno : (971 <? - k) = false) by (apply Z.ltb_ge; lia).
  assert (Hne : (- k =? 971) = false) by (apply Z.eqb_neq; lia).
  assert (Hp : 0 < 2 ^ k) by (apply Z.pow_pos_nonneg; lia).
  destruct (scale2_integer v k) as [-> | [-> ->]]; [lia| |].
  - rewrite rne_div_one, Hno, Hne. cbn [orb andb].
    unfold Number_isFinite, Number_isInteger, intOf.
    rewrite Z.opp_involutive.
    destruct (Z.leb_spec 0 (- k)) as [Hz|Hz].
    + assert (k = 0) by lia. subst k. change (2 ^ (- 0)) with 1.
      change (2 ^ 0) with 1.
      rewrite !Z.mul_1_r. destruct neg; auto.
    + replace (if neg then - (v * 2 ^ k) else v * 2 ^ k)
        with ((if neg then - v else v) * 2 ^ k) by (destruct neg; ring).
      rewrite Z.mod_mul, Z.div_mul by lia. auto.
  - change (1 * 2 ^ 0) with 1. rewrite rne_div_one.
    cbn. destruct neg; rewrite ?Z.mul_1_r; auto.
Qed.

Lemma splitSign_cases (t : jsstring) :
  (exists r, t = 43%N :: r /\ splitSign t = (false, r)) \/
  (exists r, t = 45%N :: r /\ splitSign t = (true, r)) \/
  (splitSign t = (false, t) /\
   forall c r, t = c :: r -> c <> 43%N /\ c <> 45%N).
Proof.
  destruct t as [|c r]; cbn.
  - right; right. split; [reflexivity | discriminate].
  - destruct (N.eqb_spec c 43) as [->|H43]; [left; eauto|].
    destruct (N.eqb_spec c 45) as [->|H45]; [right; left; eauto|].
    right; right. split; [reflexivity|].
    intros c' r' E. injection E as <- _. auto.
Qed.

Lemma nonDecimal_digits (ds : jsstring) :
  forallb isDigit ds = true -> nonDecimal ds = None.
Proof.
  destruct ds as [|z [|p r]]; try reflexivity.
  cbn [forallb]. rewrite !andb_true_iff. intros (_ & Hp & _).
  unfold nonDecimal. destruct (negb (N.eqb z 48)); [reflexivity|].
  each_digit Hp; reflexivity.
Qed.

Lemma nonDecimal_signed (c : N) (r : jsstring) :
  c <> 48%N -> nonDecimal (c :: r) = None.
Proof.
  intros H. destruct r as [|p r]; [reflexivity|].
  unfold nonDecimal. apply N.eqb_neq in H. rewrite H. reflexivity.
Qed.

Lemma digits_not_Infinity (ds : jsstring) :
  forallb isDigit ds = true -> streq ds (lit "Infinity") = false.
Proof.
  destruct ds as [|c r]; [reflexivity|].
  cbn [forallb]. rewrite andb_true_iff. intros [Hc _].
  each_digit Hc; reflexivity.
Qed.

Lemma unsignedDecimal_digits (neg : bool) (ds : jsstring) :
  isEmpty ds = false -> forallb isDigit ds = true ->
  unsignedDecimal neg ds = round64 neg (digitsValue 10 ds) 1.
Proof.
  intros He Hd. unfold unsignedDecimal.
  rewrite (span_digits ds Hd), He. cbn [isEmpty andb exponentPart List.length].
  rewrite app_nil_r. unfold roundDecimal. cbn [Z.of_nat Z.sub Z.opp Z.add Z.leb Z.compare].
  change (10 ^ 0) with 1. rewrite Z.mul_1_r. reflexivity.
Qed.

(** [Number] on a decimal integer that is already trimmed. *)
Lemma Number_base10 (t : jsstring) :
  trim t = t ->
  spec_isBase10Integer t = true ->
  Number t = round64 (fst (splitSign t)) (digitsValue 10 (snd (splitSign t))) 1.
Proof.
  intros Ht Hb. unfold spec_isBase10Integer in Hb. unfold Number. rewrite Ht.
  destruct (splitSign_cases t) as [(r & -> & Hs) | [(r & -> & Hs) | (Hs & Hc)]];
    rewrite Hs in *; apply andb_true_iff in Hb; destruct Hb as [He Hd];
    apply negb_true_iff in He; cbn [fst snd].
  - cbn [isEmpty]. rewrite nonDecimal_signed by discriminate.
    rewrite digits_not_Infinity by exact Hd.
    apply unsignedDecimal_digits; assumption.
  - cbn [isEmpty]. rewrite nonDecimal_signed by discriminate.
    rewrite digits_not_Infinity by exact Hd.
    apply unsignedDecimal_digits; assumption.
  - rewrite He, nonDecimal_digits, digits_not_Infinity by exact Hd.
    apply unsignedDecimal_digits; assumption.
Qed.

(** A decimal integer of absolute value below [2^53], with white space
    around it or not, is accepted as the integer it denotes. *)
Lemma parseGuess_base10 (raw : jsstring) :
  spec_isBase10Integer (trim raw) = true ->
  Z.abs (spec_base10Value (trim raw)) < 2 ^ 53 ->
  parseGuess raw = Some (spec_base10Value (trim raw)).
Proof.
  intros Hb Hv. unfold parseGuess.
  rewrite (Number_base10 (trim raw) (trim_idempotent raw) Hb).
  unfold spec_isBase10Integer, spec_base10Value in *.
  destruct (splitSign (trim raw)) as [neg ds] eqn:Hs. cbn [fst snd].
  apply andb_true_iff in Hb. destruct Hb as [He Hd].
  pose proof (digitsValue_nonneg ds Hd) as H0.
  assert (Hne : isEmpty (trim raw) = false).
  { destruct (trim raw); [|reflexivity]. cbn in Hs.
    injection Hs as _ <-. discriminate He. }
  rewrite Hne.
  destruct (round64_integer neg (digitsValue 10 ds)) as (Hf & Hi & Hval).
  { destruct neg; lia. }
  rewrite Hf, Hi, Hval. reflexivity.
Qed.



(** ** The round engine on the scenarios *)

Lemma round_invariant_witness :
  let s1 := submitGuesses [lit "10"; lit "5"; lit "7"] easyRound in
  0 <= attempts s1 <= 6 /\
  target s1 = 7 /\
  attempts (submitGuesses [lit "9"; lit "7"] s1) = 3 /\
  gameOver (submitGuesses [lit "9"; lit "7"] s1) = true.
Proof.
  pose proof (round_invariant aDraw easy (initialState aDraw)
                [lit "10"; lit "5"; lit "7"] [lit "9"; lit "7"]) as H.
  cbv zeta in H. destruct H as (Hb & _ & Ht & Ho).
  split; [exact Hb|]. split; [exact Ht|].
  exact (Ho eq_refl).
Defined.

Lemma correct_guess_wins_witness :
  attempts lastAttempt = 5 /\
  let s' := submitGuess (lit " 7 ") lastAttempt in
  attempts s' = 6 /\ gameOver s' = true /\ pendingWinAttempts s' = Some 6 /\
  hint s' = lit "Correct! You guessed it in 6 attempts.".
Proof.
  split; [reflexivity|].
  destruct (correct_guess_wins lastAttempt (lit " 7 ") 7)
    as (Ha & Hg & Hp & _ & _ & Hh);
    [reflexivity | reflexivity | vm_compute; split; discriminate
    | reflexivity |].
  cbv zeta. repeat split; assumption.
Defined.

Lemma last_wrong_guess_loses_witness :
  let s' := submitGuess (lit "8") lastAttempt in
  attempts s' = 6 /\ gameOver s' = true /\ pendingWinAttempts s' = None /\
  hint s' = lit "Game over. The number was 7.".
Proof.
  destruct (last_wrong_guess_loses lastAttempt (lit "8") 8)
    as (Ha & Hg & Hp & _ & Hh);
    [reflexivity | reflexivity | vm_compute; split; discriminate
    | vm_compute; discriminate | vm_compute; discriminate |].
  cbv zeta. repeat split; assumption.
Defined.




(** ** Sorting with a comparator *)

Section Sorting.

Context {A : Type} (cmp : A -> A -> Z).

Lemma insertSorted_perm (x : A) (l : list A) :
  Permutation (x :: l) (insertSorted cmp x l).
Proof.
  induction l as [|y t IH]; cbn; [reflexivity|].
  destruct (cmp x y <=? 0); [reflexivity|].
  rewrite perm_swap. apply perm_skip, IH.
Qed.

Lemma Array_sort_perm (l : list A) : Permutation l (Array_sort cmp l).
Proof.
  induction l as [|x t IH]; cbn; [reflexivity|].
  rewrite <- insertSorted_perm. apply perm_skip, IH.
Qed.

Lemma Array_sort_length (l : list A) :
  List.length (Array_sort cmp l) = List.length l.
Proof. symmetry. apply Permutation_length, Array_sort_perm. Qed.

(** An element that compares greater than all of a list goes last. *)
Lemma insertSorted_last (x : A) (l : list A) :
  Forall (fun y => 0 < cmp x y) l -> insertSorted cmp x l = l ++ [x].
Proof.
  induction 1 as [|y t Hy _ IH]; cbn; [reflexivity|].
  destruct (Z.leb_spec (cmp x y) 0); [lia|]. rewrite IH. reflexivity.
Qed.

(** An element that compares not greater than the head stays first. *)
Lemma insertSorted_first (x y : A) (t : list A) :
  cmp x y <= 0 -> insertSorted cmp x (y :: t) = x :: y :: t.
Proof. intros H. cbn. apply Z.leb_le in H. rewrite H. reflexivity. Qed.

Hypothesis cmp_consistent : consistent cmp.

Lemma cmp_flip (a b : A) : 0 < cmp a b -> cmp b a < 0.
Proof.
  intros H. destruct cmp_consistent as [Hs _]. specialize (Hs a b).
  rewrite (Z.sgn_pos _ H) in Hs.
  apply Z.sgn_neg_iff. lia.
Qed.

Lemma cmp_flip_neg (a b : A) : cmp a b < 0 -> 0 < cmp b a.
Proof.
  intros H. destruct cmp_consistent as [Hs _]. specialize (Hs a b).
  rewrite (Z.sgn_neg _ H) in Hs.
  apply Z.sgn_pos_iff. lia.
Qed.

Lemma cmp_refl (a : A) : cmp a a = 0.
Proof.
  destruct cmp_consistent as [Hs _]. specialize (Hs a a).
  apply Z.sgn_null_iff. lia.
Qed.

Lemma insertSorted_sorted (x : A) (l : list A) :
  StronglySorted (fun a b => cmp a b <= 0) l ->
  StronglySorted (fun a b => cmp a b <= 0) (insertSorted cmp x l).
Proof.
  induction 1 as [|y t Hs IH Hy]; cbn.
  - constructor; constructor.
  - destruct (Z.leb_spec (cmp x y) 0) as [Hle|Hgt].
    + constructor; [constructor; assumption|].
      constructor; [exact Hle|].
      apply Forall_forall. intros z Hz.
      destruct cmp_consistent as [_ Htr].
      apply (Htr x y z Hle). rewrite Forall_forall in Hy. auto.
    + constructor; [exact IH|].
      apply (Permutation_Forall (insertSorted_perm x t)).
      constructor; [|exact Hy].
      apply Z.lt_le_incl, cmp_flip, Hgt.
Qed.

(** The sorted array is ordered by the comparator: no element compares
    greater than one placed after it. *)
Lemma Array_sort_sorted (l : list A) :
  StronglySorted (fun a b => cmp a b <= 0) (Array_sort cmp l).
Proof.
  induction l as [|x t IH]; cbn; [constructor|].
  apply insertSorted_sorted, IH.
Qed.

Lemma insertSorted_filter (x z : A) (l : list A) :
  filter (fun y => cmp x y =? 0) (insertSorted cmp z l)
  = if cmp x z =? 0 then z :: filter (fun y => cmp x y =? 0) l
    else filter (fun y => cmp x y =? 0) l.
Proof.
  induction l as [|y t IH]; [reflexivity|].
  cbn [insertSorted]. destruct (Z.leb_spec (cmp z y) 0) as [Hle|Hgt].
  - reflexivity.
  - cbn [filter]. rewrite IH.
    destruct (Z.eqb_spec (cmp x z) 0) as [Hz|Hz]; [|reflexivity].
    destruct (Z.eqb_spec (cmp x y) 0) as [Hy|Hy]; [|reflexivity].
    exfalso. destruct cmp_consistent as [Hs Ht].
    assert (cmp z x <= 0).
    { specialize (Hs z x). rewrite Hz in Hs. cbn in Hs.
      apply Z.sgn_null_iff in Hs. lia. }
    specialize (Ht z x y). lia.
Qed.

(** The sort is stable: the elements that compare equal to a given one
    come out in the order they came in. *)
Lemma Array_sort_stable (x : A) (l : list A) :
  filter (fun y => cmp x y =? 0) (Array_sort cmp l)
  = filter (fun y => cmp x y =? 0) l.
Proof.
  induction l as [|z t IH]; [reflexivity|].
  cbn [Array_sort fold_right]. fold (Array_sort cmp t).
  rewrite insertSorted_filter, IH. reflexivity.
Qed.

End Sorting.

Section StableSort.
Context {A : Type} (cmp : A -> A -> Z).
Hypothesis cmp_consistent : consistent cmp.

Lemma sorted_stable_unique (l1 l2 : list A) :
  StronglySorted (fun a b => cmp a b <= 0) l1 ->
  StronglySorted (fun a b => cmp a b <= 0) l2 ->
  (forall x, filter (fun y => cmp x y =? 0) l1
             = filter (fun y => cmp x y =? 0) l2) ->
  l1 = l2.
Proof.
  pose proof (cmp_refl cmp cmp_consistent) as Hrefl.
  intros H1. revert l2.
  induction H1 as [|a t1 Hs1 IH Ha]; intros l2 H2 Hf.
  - destruct l2 as [|b t2]; [reflexivity|].
    specialize (Hf b). cbn in Hf. rewrite Hrefl in Hf. discriminate Hf.
  - destruct H2 as [|b t2 Hs2 Hb].
    { specialize (Hf a). cbn in Hf. rewrite Hrefl in Hf. discriminate Hf. }
    assert (Hab : cmp a b <= 0).
    { pose proof (Hf b) as Hfb. cbn [filter] in Hfb.
      rewrite (Hrefl b) in Hfb. cbn in Hfb.
      destruct (Z.eqb_spec (cmp b a) 0) as [E|E].
      - destruct cmp_consistent as [Hsgn _]. specialize (Hsgn a b).
        rewrite E in Hsgn. cbn in Hsgn. apply Z.sgn_null_iff in Hsgn. lia.
      - assert (Hin : In b (filter (fun y => cmp b y =? 0) t1))
          by (rewrite Hfb; left; reflexivity).
        apply filter_In in Hin. destruct Hin as [Hin _].
        rewrite Forall_forall in Ha. exact (Ha b Hin). }
    assert (Hba : cmp b a <= 0).
    { pose proof (Hf a) as Hfa. cbn [filter] in Hfa.
      rewrite (Hrefl a) in Hfa. cbn in Hfa.
      destruct (Z.eqb_spec (cmp a b) 0) as [E|E].
      - destruct cmp_consistent as [Hsgn _]. specialize (Hsgn b a).
        rewrite E in Hsgn. cbn in Hsgn. apply Z.sgn_null_iff in Hsgn. lia.
      - assert (Hin : In a (filter (fun y => cmp a y =? 0) t2))
          by (rewrite <- Hfa; left; reflexivity).
        apply filter_In in Hin. destruct Hin as [Hin _].
        rewrite Forall_forall in Hb. exact (Hb a Hin). }
    assert (Heq0 : cmp a b = 0).
    { destruct (Z.lt_trichotomy (cmp a b) 0) as [H|[H|H]]; [|exact H|lia].
      pose proof (cmp_flip_neg cmp cmp_consistent a b H). lia. }
    assert (a = b).
    { pose proof (Hf a) as Hfa. cbn [filter] in Hfa.
      rewrite (Hrefl a), Heq0 in Hfa. cbn in Hfa.
      injection Hfa as E _. exact E. }
    subst b. f_equal. apply IH; [exact Hs2|].
    intros x. specialize (Hf x). cbn [filter] in Hf.
    destruct (cmp x a =? 0); [injection Hf as E; exact E | exact Hf].
Qed.

(** Any stable sort gives what [Array_sort] gives: a list that is
    ordered by the comparator and keeps, among the elements that
    compare equal, the order of [l], is [Array_sort cmp l]. *)
Lemma Array_sort_unique (l l' : list A) :
  StronglySorted (fun a b => cmp a b <= 0) l' ->
  (forall x, filter (fun y => cmp x y =? 0) l'
             = filter (fun y => cmp x y =? 0) l) ->
  l' = Array_sort cmp l.
Proof.
  intros Hs Hf. apply sorted_stable_unique; [exact Hs | |].
  - apply Array_sort_sorted, cmp_consistent.
  - intros x. rewrite Hf. symmetry. apply Array_sort_stable, cmp_consistent.
Qed.
End StableSort.

(** ** The ranking of the leaderboard *)

Lemma sgn_sub_flip (x y : Z) : Z.sgn (x - y) = - Z.sgn (y - x).
Proof. rewrite <- Z.sgn_opp. f_equal. ring. Qed.

Lemma DifficultyKey_eqb_eq (a b : DifficultyKey) :
  DifficultyKey_eqb a b = true <-> a = b.
Proof. destruct a, b; cbn; split; congruence. Qed.

Lemma codeUnitCompare_consistent : consistent codeUnitCompare.
Proof.
  split.
  - induction a as [|x a IH]; destruct b as [|y b]; cbn; try reflexivity.
    rewrite (N.compare_antisym x y).
    destruct (x ?= y)%N; cbn; auto.
  - induction a as [|x a IH]; destruct b as [|y b]; destruct c as [|z c];
      cbn; try lia.
    destruct (N.compare_spec x y), (N.compare_spec y z),
      (N.compare_spec x z); subst; try lia.
    apply IH.
Qed.

Section Ranking.

Variable localeCompare : jsstring -> jsstring -> Z.

Hypothesis localeCompare_consistent : consistent localeCompare.

Lemma compareEntries_consistent : consistent (compareEntries localeCompare).
Proof.
  destruct localeCompare_consistent as [Hs Ht].
  split.
  - intros a b. unfold compareEntries.
    destruct (Entry.difficulty a), (Entry.difficulty b); cbn;
      try reflexivity;
      rewrite (Z.eqb_sym (Entry.attempts b) (Entry.attempts a));
      destruct (Entry.attempts a =? Entry.attempts b); cbn;
      auto using sgn_sub_flip.
  - intros a b c. unfold compareEntries.
    destruct (Entry.difficulty a), (Entry.difficulty b),
      (Entry.difficulty c); cbn; try lia;
      destruct (Z.eqb_spec (Entry.attempts a) (Entry.attempts b)),
        (Z.eqb_spec (Entry.attempts b) (Entry.attempts c)),
        (Z.eqb_spec (Entry.attempts a) (Entry.attempts c)); cbn; try lia;
      intros H1 H2; exact (Ht _ _ _ H2 H1).
Qed.

Lemma compareEntries_above (a b : LeaderboardEntry) :
  compareEntries localeCompare a b < 0 <-> spec_ranksAbove localeCompare a b.
Proof.
  pose proof (cmp_flip localeCompare localeCompare_consistent) as Hf.
  pose proof (cmp_flip_neg localeCompare localeCompare_consistent) as Hn.
  unfold compareEntries, spec_ranksAbove.
  destruct (Entry.difficulty a), (Entry.difficulty b); cbn;
    try (split; [intros; left; lia | intros; lia]);
    try (split; [intros; lia | intros [?|[? _]]; [lia | discriminate]]);
    destruct (Z.eqb_spec (Entry.attempts a) (Entry.attempts b)) as [E|E]; cbn;
    (split;
     [ intros H; right; split; [reflexivity|]; first [left; lia | right; split; [assumption|]; apply Hn; exact H]
     | intros [H|[_ [H|[H1 H2]]]]; first [lia | apply Hf; exact H2] ]).
Qed.






End Ranking.

(** ** The states of the component *)

Section Component.
Variable localeCompare : jsstring -> jsstring -> Z.

Lemma submit_prompt (s : AppState) :
  round_ok s -> prompt_ok s -> prompt_ok (fst (handleSubmitGuess s)).
Proof.
  intros [[Ha _] _] Hp. unfold handleSubmitGuess.
  destruct (gameOver s) eqn:Hg; [exact Hp|].
  assert (Hnone : pendingWinAttempts s = None).
  { destruct (pendingWinAttempts s) as [w|] eqn:E; [|reflexivity].
    destruct Hp as [_ Hw].
    destruct (Hw w E) as (_ & _ & H). congruence. }
  destruct (parseGuess (guessText s)) as [guess|]; [|exact Hp].
  destruct ((guess <? min (difficulty s)) || (max (difficulty s) <? guess));
    [exact Hp|].
  cbv zeta.
  destruct (guess =? target s).
  { split; cbn; [discriminate|]. intros w H. injection H as <-.
    repeat split; lia. }
  destruct Hp as [Hm _]. rewrite Hnone in Hm.
  destruct (attemptLimitReached s (attempts s + 1));
    destruct (guess <? target s);
    (split; cbn; rewrite Hnone; [exact Hm | discriminate]).
Qed.

Lemma startNewGame_prompt (u : Random) (k : DifficultyKey) (s : AppState) :
  prompt_ok (fst (startNewGame u k s)).
Proof. split; cbn; discriminate. Qed.

(** Every state of the component satisfies the round invariant and the
    prompt invariant. *)
Lemma reachable_ok (s : AppState) :
  reachable localeCompare s -> round_ok s /\ prompt_ok s.
Proof.
  induction 1 as [u | ev s _ [Hr Hp]].
  - split; [split; cbn; [lia | intros _; lia]|].
    split; cbn; discriminate.
  - destruct ev; unfold step, handle.
    + split; [exact Hr | exact Hp].
    + split.
      * destruct (submit_round s) as (Hk & _ & H).
        destruct Hr as [Hb Ho].
        unfold round_ok, difficulty in *. rewrite Hk.
        destruct H as [[Ha Hg] | (Hg & Ha & [Hg' | Hlt])].
        -- rewrite Ha, Hg. auto.
        -- specialize (Ho Hg). rewrite Ha, Hg'. split; [lia | discriminate].
        -- rewrite Ha. split; [lia | intros _; lia].
      * apply submit_prompt; assumption.
    + unfold pressDifficulty.
      destruct (DifficultyKey_eqb k (difficultyKey s)); [auto|].
      cbv zeta.
      split; [|split; cbn; discriminate].
      split; cbn; pose proof (configOf_maxAttempts_pos k);
        unfold difficulty; cbn; [lia | intros _; lia].
    + split; [apply startNewGame_ok | apply startNewGame_prompt].
    + split; [exact Hr | exact Hp].
    + split; [exact Hr|]. destruct Hp as [Hm Hw].
      split; [cbn; discriminate | exact Hw].
    + unfold handleSaveWin.
      destruct (pendingWinAttempts s) as [w|] eqn:E.
      * destruct (isEmpty (trim (playerName s)));
          (split; [exact Hr | exact Hp]).
      * split; [exact Hr|]. split; cbn; [discriminate|].
        rewrite E. discriminate.
    + split; [exact Hr|]. split; cbn; discriminate.
    + split; [exact Hr | exact Hp].
    + split; [exact Hr | exact Hp].
    + split; [exact Hr | exact Hp].
    + split; [exact Hr | exact Hp].
    + split; [exact Hr | exact Hp].
Qed.
End Component.

Lemma In_firstn {A : Type} (n : nat) (x : A) (l : list A) :
  In x (firstn n l) -> In x l.
Proof.
  revert l. induction n as [|n IH]; intros [|y t]; cbn; try contradiction.
  intros [H|H]; [left; exact H | right; apply IH, H].
Qed.

Section LeaderboardClaims.

Variable localeCompare : jsstring -> jsstring -> Z.
Hypothesis localeCompare_consistent : consistent localeCompare.

Let above := spec_ranksAbove localeCompare.
Let rank := sortLeaderboard localeCompare.


Lemma saveWin_saved (h : Host) (s : AppState) (w : Z) :
  pendingWinAttempts s = Some w ->
  isEmpty (trim (playerName s)) = false ->
  let next :=
    firstn 50 (rank (newEntry h s (trim (playerName s)) w :: leaderboard s)) in
  handleSaveWin localeCompare h s
  = (fst (setLeaderboard next s), [persistLeaderboard next]).
Proof.
  intros Hp Hn. unfold handleSaveWin. rewrite Hp, Hn. reflexivity.
Qed.

(** C8. Whatever the size of the collection, saving a win, with a name
    that is not blank, leaves a collection of at most 50 entries: the
    first 50 of the ranking of the new entry and the old ones, which is
    also what the handler asks to persist in the same step. *)
Theorem saved_collection_capped (h : Host) (s : AppState) (w : Z) :
  pendingWinAttempts s = Some w ->
  isEmpty (trim (playerName s)) = false ->
  let next :=
    firstn 50 (rank (newEntry h s (trim (playerName s)) w :: leaderboard s)) in
  leaderboard (fst (handleSaveWin localeCompare h s)) = next /\
  snd (handleSaveWin localeCompare h s) = [persistLeaderboard next] /\
  (List.length next <= 50)%nat /\
  (List.length next = Nat.min 50 (S (List.length (leaderboard s))))%nat.
Proof.
  intros Hp Hn next. rewrite (saveWin_saved h s w Hp Hn). fold next.
  split; [reflexivity|]. split; [reflexivity|]. split.
  - apply firstn_le_length.
  - subst next rank. unfold sortLeaderboard.
    rewrite length_firstn, Array_sort_length. reflexivity.
Qed.

(** C9. With a name that is empty once trimmed, saving a win changes
    nothing: the collection is the same and nothing is persisted; and
    when a win is pending, as it is in every state of the component in
    which the name prompt is open, the whole state is unchanged and the
    handler raises the alert that asks for a name. *)
Theorem blank_name_rejected (h : Host) (s : AppState) :
  isEmpty (trim (playerName s)) = true ->
  leaderboard (fst (handleSaveWin localeCompare h s)) = leaderboard s /\
  (forall next,
     ~ In (persistLeaderboard next) (snd (handleSaveWin localeCompare h s))) /\
  (pendingWinAttempts s <> None \/
   (reachable localeCompare s /\ nameModalOpen s = true) ->
   handleSaveWin localeCompare h s
   = (s, [Alert_alert (lit "Name required")
            (lit "Please enter your name to save your score.")])).
Proof.
  intros Hn.
  assert (Hpending :
            pendingWinAttempts s <> None \/
            (reachable localeCompare s /\ nameModalOpen s = true) ->
            pendingWinAttempts s <> None).
  { intros [H|[Hr Hm]]; [exact H|].
    destruct (reachable_ok localeCompare s Hr) as [_ [Hp _]]. exact (Hp Hm). }
  unfold handleSaveWin. rewrite Hn.
  destruct (pendingWinAttempts s) as [w|]; cbn.
  - split; [reflexivity|]. split.
    + intros next [H|[]]. discriminate H.
    + intros _. reflexivity.
  - split; [reflexivity|]. split.
    + intros next [].
    + intros H. apply Hpending in H. contradiction.
Qed.

(** C10, amended. When the collection holds 50 entries or more that all
    rank above the new entry, saving the win returns the first 50 of
    the old entries in rank order: the new entry is not among them. *)
Theorem new_entry_dropped (h : Host) (s : AppState) (w : Z) :
  pendingWinAttempts s = Some w ->
  isEmpty (trim (playerName s)) = false ->
  (50 <= List.length (leaderboard s))%nat ->
  let entry := newEntry h s (trim (playerName s)) w in
  Forall (fun e => above e entry) (leaderboard s) ->
  let next := leaderboard (fst (handleSaveWin localeCompare h s)) in
  next = firstn 50 (rank (leaderboard s)) /\
  ~ In entry next /\
  List.length next = 50%nat.
Proof.
  intros Hp Hn Hlen entry Hall next.
  pose proof (compareEntries_consistent _ localeCompare_consistent) as Hc.
  assert (Hnext : next = firstn 50 (rank (leaderboard s))).
  { subst next. rewrite (saveWin_saved h s w Hp Hn). cbn [fst leaderboard setLeaderboard].
    fold entry. subst rank. unfold sortLeaderboard, Array_sort.
    cbn [fold_right]. fold (Array_sort (compareEntries localeCompare) (leaderboard s)).
    rewrite insertSorted_last.
    - rewrite firstn_app, Array_sort_length.
      replace (50 - List.length (leaderboard s))%nat with 0%nat by lia.
      cbn [firstn]. apply app_nil_r.
    - apply (Permutation_Forall (Array_sort_perm _ (leaderboard s))).
      eapply Forall_impl; [|exact Hall]. intros e He.
      apply (cmp_flip_neg _ Hc).
      apply (compareEntries_above _ localeCompare_consistent). exact He. }
  split; [exact Hnext|]. split.
  - rewrite Hnext. intros Hin.
    assert (Hin' : In entry (leaderboard s)).
    { apply (Permutation_in _
               (Permutation_sym
                  (Array_sort_perm (compareEntries localeCompare)
                     (leaderboard s)))).
      apply (In_firstn 50). exact Hin. }
    rewrite Forall_forall in Hall. specialize (Hall entry Hin').
    apply (compareEntries_above _ localeCompare_consistent) in Hall.
    rewrite (cmp_refl _ Hc) in Hall. lia.
  - rewrite Hnext, length_firstn. subst rank. unfold sortLeaderboard.
    rewrite Array_sort_length. lia.
Qed.

End LeaderboardClaims.

(** ** JSON.parse is total *)

Module JSONFacts.
Import JSON.

Lemma skipWs_length (s : jsstring) :
  (List.length (skipWs s) <= List.length s)%nat.
Proof.
  induction s as [|c r IH]; cbn; [lia|].
  destruct (isWs c); cbn; lia.
Qed.

Lemma span_length (p : N -> bool) (s a b : jsstring) :
  span p s = (a, b) -> (List.length a + List.length b = List.length s)%nat.
Proof.
  revert a b. induction s as [|c r IH]; cbn; intros a b H.
  - injection H as <- <-. reflexivity.
  - destruct (p c).
    + destruct (span p r) as [a' b'] eqn:E. injection H as <- <-.
      cbn. rewrite (IH a' b' eq_refl). reflexivity.
    + injection H as <- <-. reflexivity.
Qed.

Lemma stripPrefix_length (p s rest : jsstring) :
  stripPrefix p s = Some rest ->
  (List.length rest + List.length p = List.length s)%nat.
Proof.
  revert s. induction p as [|x p IH]; intros [|y s]; cbn; intros H;
    try discriminate; try (injection H as <-; cbn; lia).
  destruct (N.eqb x y); [|discriminate]. rewrite <- (IH s H). lia.
Qed.

Lemma keyword_progress {A : Type} (word : string) (a a' : A) (s rest : jsstring) :
  word <> EmptyString ->
  keyword word a s = Ok a' rest -> (List.length rest < List.length s)%nat.
Proof.
  intros Hw. unfold keyword.
  destruct (stripPrefix (lit word) s) as [r|] eqn:E; [|discriminate].
  intros H. injection H as _ <-. apply stripPrefix_length in E.
  destruct word; [contradiction|]. cbn in E. lia.
Qed.

Lemma stringBody_progress (s t rest : jsstring) :
  stringBody s = Ok t rest -> (List.length rest < List.length s)%nat.
Proof.
  remember (List.length s) as n eqn:Hn.
  revert s t rest Hn.
  induction n as [n IH] using lt_wf_ind. intros s t rest Hn.
  destruct s as [|c r]; cbn [stringBody]; [discriminate|].
  destruct (N.eqb c 34).
  { intros H. injection H as _ <-. subst n. cbn. lia. }
  destruct (N.eqb c 92).
  - destruct r as [|e r']; [discriminate|].
    destruct (N.eqb e 117).
    + destruct r' as [|h1 [|h2 [|h3 [|h4 r'']]]]; try discriminate.
      destruct (forallb isHexDigit [h1; h2; h3; h4]); [|discriminate].
      destruct (stringBody r'') as [t' rest'| |] eqn:E; try discriminate.
      intros H. injection H as _ <-.
      assert (List.length rest' < List.length r'')%nat.
      { eapply (IH (List.length r'')); [|reflexivity|exact E]. subst n. cbn. lia. }
      subst n. cbn. lia.
    + destruct (escape e); [|discriminate].
      destruct (stringBody r') as [t' rest'| |] eqn:E; try discriminate.
      intros H. injection H as _ <-.
      assert (List.length rest' < List.length r')%nat.
      { eapply (IH (List.length r')); [|reflexivity|exact E]. subst n. cbn. lia. }
      subst n. cbn. lia.
  - destruct (c <? 32)%N; [discriminate|].
    destruct (stringBody r) as [t' rest'| |] eqn:E; try discriminate.
    intros H. injection H as _ <-.
    assert (List.length rest' < List.length r)%nat.
    { eapply (IH (List.length r)); [|reflexivity|exact E]. subst n. cbn. lia. }
    subst n. cbn. lia.
Qed.

Lemma stringBody_fuel (s : jsstring) : stringBody s <> OutOfFuel.
Proof.
  remember (List.length s) as n eqn:Hn.
  revert s Hn.
  induction n as [n IH] using lt_wf_ind. intros s Hn.
  destruct s as [|c r]; cbn [stringBody]; [discriminate|].
  destruct (N.eqb c 34); [discriminate|].
  destruct (N.eqb c 92).
  - destruct r as [|e r']; [discriminate|].
    destruct (N.eqb e 117).
    + destruct r' as [|h1 [|h2 [|h3 [|h4 r'']]]]; try discriminate.
      destruct (forallb isHexDigit [h1; h2; h3; h4]); [|discriminate].
      destruct (stringBody r'') as [t' rest'| |] eqn:E; try discriminate.
      exfalso. eapply (IH (List.length r'')); [|reflexivity|exact E]. subst n. cbn. lia.
    + destruct (escape e); [|discriminate].
      destruct (stringBody r') as [t' rest'| |] eqn:E; try discriminate.
      exfalso. eapply (IH (List.length r')); [|reflexivity|exact E]. subst n. cbn. lia.
  - destruct (c <? 32)%N; [discriminate|].
    destruct (stringBody r) as [t' rest'| |] eqn:E; try discriminate.
    exfalso. eapply (IH (List.length r)); [|reflexivity|exact E]. subst n. cbn. lia.
Qed.


Ltac break_match :=
  match goal with
  | |- context [match ?x with _ => _ end] => destruct x eqn:?
  | |- context [if ?x then _ else _] => destruct x eqn:?
  end.

Lemma numberToken_fuel (s : jsstring) : numberToken s <> OutOfFuel.
Proof. unfold numberToken. repeat break_match; discriminate. Qed.

Lemma splitSign_length (s r : jsstring) (neg : bool) :
  splitSign s = (neg, r) -> (List.length r <= List.length s)%nat.
Proof.
  unfold splitSign. repeat break_match; intros H; injection H as _ <-;
    cbn; lia.
Qed.

Lemma numberToken_progress (s rest : jsstring) (n : number) :
  numberToken s = Ok n rest -> (List.length rest < List.length s)%nat.
Proof.
  unfold numberToken.
  destruct (match s with
            | [] => (false, s)
            | c :: r => if N.eqb c 45 then (true, r) else (false, s)
            end) as [neg r0] eqn:Hsign.
  assert (H0 : (List.length r0 <= List.length s)%nat).
  { destruct s as [|c r]; [injection Hsign as _ <-; lia|].
    destruct (N.eqb c 45); injection Hsign as _ <-; cbn; lia. }
  destruct (span isDigit r0) as [ip r1] eqn:Hip.
  apply span_length in Hip.
  destruct (isEmpty ip || _) eqn:Hbad; [discriminate|].
  apply orb_false_iff in Hbad. destruct Hbad as [Hne _].
  assert (H1 : (List.length r1 < List.length r0)%nat).
  { destruct ip; [discriminate Hne|]. cbn in Hip. lia. }
  destruct (match r1 with
            | [] => Some ([], r1)
            | c :: r => _
            end) as [[fp r2]|] eqn:Hfrac; [|discriminate].
  assert (H2 : (List.length r2 <= List.length r1)%nat).
  { destruct r1 as [|c r]; [injection Hfrac as _ <-; lia|].
    destruct (N.eqb c 46).
    - destruct (span isDigit r) as [fp' r2'] eqn:Hfp.
      apply span_length in Hfp.
      destruct (isEmpty fp'); [discriminate|].
      injection Hfrac as _ <-. cbn. lia.
    - injection Hfrac as _ <-. lia. }
  destruct (match r2 with
            | [] => Some (0, r2)
            | c :: r => _
            end) as [[x r3]|] eqn:Hexp; [|discriminate].
  assert (H3 : (List.length r3 <= List.length r2)%nat).
  { destruct r2 as [|c r]; [injection Hexp as _ <-; lia|].
    destruct (N.eqb c 101 || N.eqb c 69)%N.
    - destruct (splitSign r) as [eneg r'] eqn:Hs.
      apply splitSign_length in Hs.
      destruct (span isDigit r') as [ds r3'] eqn:Hds.
      apply span_length in Hds.
      destruct (isEmpty ds); [discriminate|].
      injection Hexp as _ <-. cbn. lia.
    - injection Hexp as _ <-. lia. }
  intros H. injection H as _ <-. lia.
Qed.

Lemma parse_progress (f : nat) :
  (forall s v r, parseValue f s = Ok v r ->
                 (List.length r < List.length s)%nat) /\
  (forall s vs r, parseElements f s = Ok vs r ->
                  (List.length r < List.length s)%nat) /\
  (forall s ms r, parseMembers f s = Ok ms r ->
                  (List.length r < List.length s)%nat).
Proof.
  induction f as [|f (IHv & IHe & IHm)];
    [repeat split; intros; discriminate|].
  split; [|split].
  - intros s v rest. simpl.
    pose proof (skipWs_length s) as Hs.
    destruct (skipWs s) as [|c r]; [discriminate|]. cbn in Hs.
    destruct (N.eqb c 110).
    { intros H. apply keyword_progress in H; [cbn in H; lia | discriminate]. }
    destruct (N.eqb c 116).
    { intros H. apply keyword_progress in H; [cbn in H; lia | discriminate]. }
    destruct (N.eqb c 102).
    { intros H. apply keyword_progress in H; [cbn in H; lia | discriminate]. }
    destruct (N.eqb c 34).
    { destruct (stringBody r) as [t r'| |] eqn:E; try discriminate.
      apply stringBody_progress in E.
      intros H. injection H as _ <-. lia. }
    destruct (N.eqb c 91).
    { pose proof (skipWs_length r) as Hr.
      destruct (skipWs r) as [|c1 r1]; [discriminate|]. cbn in Hr.
      destruct (N.eqb c1 93); [intros H; injection H as _ <-; lia|].
      destruct (parseElements f (c1 :: r1)) as [vs r'| |] eqn:E;
        try discriminate.
      apply IHe in E. cbn in E. intros H. injection H as _ <-. lia. }
    destruct (N.eqb c 123).
    { pose proof (skipWs_length r) as Hr.
      destruct (skipWs r) as [|c1 r1]; [discriminate|]. cbn in Hr.
      destruct (N.eqb c1 125); [intros H; injection H as _ <-; lia|].
      destruct (parseMembers f (c1 :: r1)) as [ms r'| |] eqn:E;
        try discriminate.
      apply IHm in E. cbn in E. intros H. injection H as _ <-. lia. }
    destruct (N.eqb c 45 || isDigit c); [|discriminate].
    destruct (numberToken (c :: r)) as [n r'| |] eqn:E; try discriminate.
    apply numberToken_progress in E. cbn in E.
    intros H. injection H as _ <-. lia.
  - intros s vs rest. simpl.
    destruct (parseValue f s) as [v r| |] eqn:E; try discriminate.
    apply IHv in E.
    pose proof (skipWs_length r) as Hr.
    destruct (skipWs r) as [|c r']; [discriminate|]. cbn in Hr.
    destruct (N.eqb c 93); [intros H; injection H as _ <-; lia|].
    destruct (N.eqb c 44); [|discriminate].
    destruct (parseElements f r') as [vs' r''| |] eqn:E'; try discriminate.
    apply IHe in E'. intros H. injection H as _ <-. lia.
  - intros s ms rest. simpl.
    pose proof (skipWs_length s) as Hs.
    destruct (skipWs s) as [|q r]; [discriminate|]. cbn in Hs.
    destruct (negb (N.eqb q 34)); [discriminate|].
    destruct (stringBody r) as [k r1| |] eqn:Ek; try discriminate.
    apply stringBody_progress in Ek.
    pose proof (skipWs_length r1) as Hr1.
    destruct (skipWs r1) as [|colon r2]; [discriminate|]. cbn in Hr1.
    destruct (negb (N.eqb colon 58)); [discriminate|].
    destruct (parseValue f r2) as [v r3| |] eqn:Ev; try discriminate.
    apply IHv in Ev.
    pose proof (skipWs_length r3) as Hr3.
    destruct (skipWs r3) as [|c r4]; [discriminate|]. cbn in Hr3.
    destruct (N.eqb c 125); [intros H; injection H as _ <-; lia|].
    destruct (N.eqb c 44); [|discriminate].
    destruct (parseMembers f r4) as [ms' r5| |] eqn:Em; try discriminate.
    apply IHm in Em. intros H. injection H as _ <-. lia.
Qed.

(** With two units of fuel for each code unit, and one more, no parser
    runs out of fuel. *)
Lemma parse_fuel (f : nat) :
  (forall s, (2 * List.length s + 1 <= f)%nat -> parseValue f s <> OutOfFuel) /\
  (forall s, (2 * List.length s + 2 <= f)%nat ->
             parseElements f s <> OutOfFuel) /\
  (forall s, (2 * List.length s + 2 <= f)%nat ->
             parseMembers f s <> OutOfFuel).
Proof.
  induction f as [|f (IHv & IHe & IHm)];
    [repeat split; intros; lia|].
  destruct (parse_progress f) as (Pv & Pe & Pm).
  split; [|split].
  - intros s Hf. simpl.
    pose proof (skipWs_length s) as Hs.
    destruct (skipWs s) as [|c r]; [discriminate|]. cbn in Hs.
    destruct (N.eqb c 110); [unfold keyword; break_match; discriminate|].
    destruct (N.eqb c 116); [unfold keyword; break_match; discriminate|].
    destruct (N.eqb c 102); [unfold keyword; break_match; discriminate|].
    destruct (N.eqb c 34).
    { pose proof (stringBody_fuel r).
      destruct (stringBody r); congruence. }
    destruct (N.eqb c 91).
    { pose proof (skipWs_length r) as Hr.
      destruct (skipWs r) as [|c1 r1]; [discriminate|]. cbn in Hr.
      destruct (N.eqb c1 93); [discriminate|].
      assert (parseElements f (c1 :: r1) <> OutOfFuel)
        by (apply IHe; cbn; lia).
      destruct (parseElements f (c1 :: r1)); congruence. }
    destruct (N.eqb c 123).
    { pose proof (skipWs_length r) as Hr.
      destruct (skipWs r) as [|c1 r1]; [discriminate|]. cbn in Hr.
      destruct (N.eqb c1 125); [discriminate|].
      assert (parseMembers f (c1 :: r1) <> OutOfFuel)
        by (apply IHm; cbn; lia).
      destruct (parseMembers f (c1 :: r1)); congruence. }
    destruct (N.eqb c 45 || isDigit c); [|discriminate].
    pose proof (numberToken_fuel (c :: r)).
    destruct (numberToken (c :: r)); congruence.
  - intros s Hf. simpl.
    assert (Hv : parseValue f s <> OutOfFuel) by (apply IHv; lia).
    destruct (parseValue f s) as [v r| |] eqn:E; try congruence.
    apply Pv in E.
    pose proof (skipWs_length r) as Hr.
    destruct (skipWs r) as [|c r']; [discriminate|]. cbn in Hr.
    destruct (N.eqb c 93); [discriminate|].
    destruct (N.eqb c 44); [|discriminate].
    assert (parseElements f r' <> OutOfFuel) by (apply IHe; lia).
    destruct (parseElements f r'); congruence.
  - intros s Hf. simpl.
    pose proof (skipWs_length s) as Hs.
    destruct (skipWs s) as [|q r]; [discriminate|]. cbn in Hs.
    destruct (negb (N.eqb q 34)); [discriminate|].
    pose proof (stringBody_fuel r) as Hk.
    destruct (stringBody r) as [k r1| |] eqn:Ek; try congruence.
    apply stringBody_progress in Ek.
    pose proof (skipWs_length r1) as Hr1.
    destruct (skipWs r1) as [|colon r2]; [discriminate|]. cbn in Hr1.
    destruct (negb (N.eqb colon 58)); [discriminate|].
    assert (Hv : parseValue f r2 <> OutOfFuel) by (apply IHv; lia).
    destruct (parseValue f r2) as [v r3| |] eqn:Ev; try congruence.
    apply Pv in Ev.
    pose proof (skipWs_length r3) as Hr3.
    destruct (skipWs r3) as [|c r4]; [discriminate|]. cbn in Hr3.
    destruct (N.eqb c 125); [discriminate|].
    destruct (N.eqb c 44); [|discriminate].
    assert (parseMembers f r4 <> OutOfFuel) by (apply IHm; lia).
    destruct (parseMembers f r4); congruence.
Qed.

(** [JSON.parse] never fails for lack of fuel: when it returns [None],
    the text is not a JSON text. *)
Lemma parseText_fuel (text : jsstring) :
  parseText (2 * List.length text + 2) text <> OutOfFuel.
Proof.
  unfold parseText.
  assert (H : parseValue (2 * List.length text + 2) text <> OutOfFuel)
    by (apply parse_fuel; lia).
  destruct (parseValue (2 * List.length text + 2) text); try congruence.
  destruct (isEmpty (skipWs rest)); discriminate.
Qed.

End JSONFacts.

(** ** Loading the leaderboard *)

Lemma parse_None (raw : jsstring) :
  JSON.parse raw = None <->
  JSON.parseText (2 * List.length raw + 2) raw = JSON.SyntaxError.
Proof.
  unfold JSON.parse.
  pose proof (JSONFacts.parseText_fuel raw) as H.
  destruct (JSON.parseText (2 * List.length raw + 2) raw);
    split; congruence.
Qed.

(** C7, amended. [load] gives the empty collection when [getItem] fails,
    when nothing or the empty string is stored, when the stored string
    is not a JSON text and when it is the text of a value that is not
    an array; in each of these cases the effect leaves the collection
    of the state as it is, and no failure reaches the caller, [load]
    being a total function.  A stored JSON array is taken as the
    collection as it is, whatever its elements are. *)
Theorem load_recovers :
  load Rejected = [] /\
  load (Resolved None) = [] /\
  load (Resolved (Some [])) = [] /\
  (forall raw, JSON.parse raw = None -> load (Resolved (Some raw)) = []) /\
  (forall raw v,
     JSON.parse raw = Some v -> JSON.Array_isArray v = false ->
     load (Resolved (Some raw)) = []) /\
  (forall got current,
     loadLeaderboard got current = current \/
     exists raw, got = Resolved (Some raw) /\
                 JSON.parse raw = Some (JSON.Arr (loadLeaderboard got current))) /\
  (forall raw elements,
     JSON.parse raw = Some (JSON.Arr elements) ->
     load (Resolved (Some raw)) = elements).
Proof.
  unfold load, loadLeaderboard, initialLeaderboard.
  repeat split; try reflexivity.
  - intros raw H. rewrite H. destruct (isEmpty raw); reflexivity.
  - intros raw v H Hv. rewrite H.
    destruct (isEmpty raw); [reflexivity|]. destruct v; try reflexivity.
    discriminate Hv.
  - intros [|[raw|]] current; auto.
    destruct (isEmpty raw); auto.
    destruct (JSON.parse raw) as [[]|] eqn:E; auto.
    right. exists raw. auto.
  - intros raw elements H. rewrite H.
    destruct raw; [discriminate H | reflexivity].
Qed.

Lemma load_recovers_witness :
  load (Resolved (Some (lit "{oops"))) = [] /\
  load (Resolved (Some (lit "{}"))) = [] /\
  load (Resolved (Some (lit "[true, 7]")))
  = [JSON.Bool true; JSON.Num (Number (lit "7"))].
Proof.
  destruct load_recovers as (_ & _ & _ & Hbad & Hshape & _ & Harr).
  split; [exact (Hbad (lit "{oops") eq_refl)|].
  split; [exact (Hshape (lit "{}") (JSON.Obj []) eq_refl eq_refl)|].
  exact (Harr (lit "[true, 7]") _ eq_refl).
Defined.

(** C7 as stated fails: the stored text [[1,null]] is an array whose
    elements are not entries, and it becomes the collection. *)
Lemma load_counterexample :
  let elements := load (Resolved (Some (lit "[1,null]"))) in
  elements <> [] /\
  forallb spec_entryShaped elements = false /\
  elements = [JSON.Num (Number (lit "1")); JSON.Null].
Proof.
  cbv zeta. split; [|split]; vm_compute; [discriminate | reflexivity | reflexivity].
Qed.

(** ** The leaderboard on the scenarios *)


Lemma saved_collection_capped_witness :
  List.length (leaderboard (wonWith (lit " Zed ") sixtyBetter)) = 60%nat /\
  (List.length
     (leaderboard
        (fst (handleSaveWin codeUnitCompare host
                (wonWith (lit " Zed ") sixtyBetter)))) <= 50)%nat.
Proof.
  split; [reflexivity|].
  destruct (saved_collection_capped codeUnitCompare host
              (wonWith (lit " Zed ") sixtyBetter) 6 eq_refl eq_refl)
    as (Hnext & _ & Hle & _).
  rewrite Hnext. exact Hle.
Defined.

Lemma blank_name_rejected_witness :
  handleSaveWin codeUnitCompare host (wonWith (lit "  ") [Bo])
  = (wonWith (lit "  ") [Bo],
     [Alert_alert (lit "Name required")
        (lit "Please enter your name to save your score.")]).
Proof.
  destruct (blank_name_rejected codeUnitCompare host
              (wonWith (lit "  ") [Bo]) eq_refl) as (_ & _ & H).
  apply H. left. vm_compute. discriminate.
Defined.

Lemma sixtyBetter_above :
  Forall
    (fun e =>
       spec_ranksAbove codeUnitCompare e
         (newEntry host (wonWith (lit " Zed ") sixtyBetter) (lit "Zed") 6))
    sixtyBetter.
Proof.
  apply Forall_forall. intros e He.
  apply in_map_iff in He. destruct He as (i & <- & _).
  right. split; [reflexivity|]. left. reflexivity.
Qed.

Lemma new_entry_dropped_witness :
  leaderboard
    (fst (handleSaveWin codeUnitCompare host
            (wonWith (lit " Zed ") sixtyBetter)))
  = firstn 50 sixtyBetter.
Proof.
  destruct (new_entry_dropped codeUnitCompare codeUnitCompare_consistent host
              (wonWith (lit " Zed ") sixtyBetter) 6 eq_refl eq_refl)
    as (Hnext & _ & _).
  - vm_compute. lia.
  - exact sixtyBetter_above.
  - rewrite Hnext. vm_compute. reflexivity.
Defined.

(** C10 as stated fails when the old entries rank at the new one: of
    entries that the rule does not tell apart the sort keeps the first,
    and that is the new entry, so it is kept and the last old one goes. *)
Lemma new_entry_dropped_counterexample :
  let s := wonWith (lit " Zed ") fiftyTied in
  let entry := newEntry host s (trim (playerName s)) 6 in
  pendingWinAttempts s = Some 6 /\
  List.length (leaderboard s) = 50%nat /\
  Forall
    (fun e =>
       spec_ranksAbove codeUnitCompare e entry \/
       spec_tied codeUnitCompare e entry)
    (leaderboard s) /\
  In entry (leaderboard (fst (handleSaveWin codeUnitCompare host s))) /\
  leaderboard (fst (handleSaveWin codeUnitCompare host s))
  = entry :: firstn 49 (leaderboard s).
Proof.
  cbv zeta. split; [reflexivity|]. split; [reflexivity|]. split; [|split].
  - apply Forall_forall. intros e He.
    change (leaderboard (wonWith (lit " Zed ") fiftyTied)) with fiftyTied in He.
    apply in_map_iff in He. destruct He as (i & <- & _).
    right. split; [reflexivity|]. split; reflexivity.
  - vm_compute. left. reflexivity.
  - vm_compute. reflexivity.
Qed.

(** * Further properties of the code *)

(** ** The hints of a round that goes on *)

(** X1. In an open round, a guess of the range that is not the target
    and does not use the last attempt is counted and the round goes on:
    the hint is Higher when the guess is below the target and Lower
    when it is above, nothing else of the round changes and nothing is
    asked of the host. *)
Theorem wrong_guess_continues (s : AppState) (raw : jsstring) (guess : Z) :
  gameOver s = false ->
  parseGuess raw = Some guess ->
  min (difficulty s) <= guess <= max (difficulty s) ->
  guess <> target s ->
  attempts s + 1 < maxAttempts (difficulty s) ->
  let s' := submitGuess raw s in
  attempts s' = attempts s + 1 /\
  gameOver s' = false /\
  target s' = target s /\
  pendingWinAttempts s' = pendingWinAttempts s /\
  nameModalOpen s' = nameModalOpen s /\
  hint s' = (if guess <? target s then lit "Higher." else lit "Lower.") /\
  snd (handleSubmitGuess (fst (setGuessText raw s))) = [].
Proof.
  intros Hg Hp Hr Ht Hl. cbv zeta. unfold submitGuess.
  set (s1 := fst (setGuessText raw s)).
  rewrite (submit_wrong s1 guess Hg Hp Hr Ht).
  unfold attemptLimitReached.
  change (difficulty s1) with (difficulty s).
  change (attempts s1) with (attempts s).
  change (target s1) with (target s).
  apply Z.leb_gt in Hl. rewrite Hl.
  destruct (guess <? target s); cbn; rewrite Hg;
    repeat match goal with |- _ /\ _ => split end; reflexivity.
Qed.

Lemma wrong_guess_continues_witness :
  hint (submitGuess (lit "10") easyRound) = lit "Lower." /\
  hint (submitGuess (lit "5") easyRound) = lit "Higher." /\
  attempts (submitGuess (lit "5") easyRound) = 1 /\
  gameOver (submitGuess (lit "5") easyRound) = false.
Proof.
  destruct (wrong_guess_continues easyRound (lit "10") 10)
    as (_ & _ & _ & _ & _ & Hh & _);
    [reflexivity | reflexivity | vm_compute; split; discriminate
    | vm_compute; discriminate | reflexivity |].
  destruct (wrong_guess_continues easyRound (lit "5") 5)
    as (Ha & Hg & _ & _ & _ & Hh' & _);
    [reflexivity | reflexivity | vm_compute; split; discriminate
    | vm_compute; discriminate | reflexivity |].
  repeat match goal with |- _ /\ _ => split end; assumption.
Defined.

(** ** More on the ranking *)

Lemma Array_sort_of_sorted {A : Type} (cmp : A -> A -> Z) (l : list A) :
  StronglySorted (fun a b => cmp a b <= 0) l -> Array_sort cmp l = l.
Proof.
  induction 1 as [|x t _ IH Hx]; [reflexivity|].
  cbn [Array_sort fold_right]. fold (Array_sort cmp t). rewrite IH.
  destruct t as [|y t']; [reflexivity|].
  apply insertSorted_first. inversion Hx; assumption.
Qed.

Lemma firstn_sorted {A : Type} (R : A -> A -> Prop) (n : nat) (l : list A) :
  StronglySorted R l -> StronglySorted R (firstn n l).
Proof.
  intros H. revert n. induction H as [|x t _ IH Hx]; intros [|n]; cbn;
    try constructor.
  - apply IH.
  - rewrite Forall_forall in *. intros y Hy. apply Hx.
    apply (In_firstn n). exact Hy.
Qed.

Section MoreRanking.

Variable localeCompare : jsstring -> jsstring -> Z.
Hypothesis localeCompare_consistent : consistent localeCompare.

Let cmp := compareEntries localeCompare.
Let rank := sortLeaderboard localeCompare.

(** X2. Ranking is idempotent, and it leaves alone a collection that is
    already in rank order: what [handleSaveWin] stores, the first 50 of
    a ranking, is in rank order, and ranking it again returns it. *)
Theorem ranking_idempotent (entries : list LeaderboardEntry) :
  rank (rank entries) = rank entries /\
  rank (firstn 50 (rank entries)) = firstn 50 (rank entries) /\
  (StronglySorted (fun a b => cmp a b <= 0) entries -> rank entries = entries).
Proof.
  pose proof (compareEntries_consistent _ localeCompare_consistent) as Hc.
  assert (Hs : StronglySorted (fun a b => cmp a b <= 0) (rank entries))
    by (apply Array_sort_sorted; exact Hc).
  subst rank cmp. unfold sortLeaderboard in *.
  split; [apply Array_sort_of_sorted; exact Hs|].
  split; [apply Array_sort_of_sorted, firstn_sorted; exact Hs|].
  apply Array_sort_of_sorted.
Qed.

(** X3. Ranking is stable: the entries that the comparator does not
    tell from a given one come out in the order they came in. *)
Theorem ranking_stable (x : LeaderboardEntry)
    (entries : list LeaderboardEntry) :
  filter (fun y => cmp x y =? 0) (rank entries)
  = filter (fun y => cmp x y =? 0) entries.
Proof.
  apply Array_sort_stable.
  apply compareEntries_consistent, localeCompare_consistent.
Qed.

(** X4. While the collection holds fewer than 50 entries, saving a win
    with a name that is not blank drops nothing: the new collection is
    a permutation of the new entry and the old ones, in rank order. *)
Theorem saved_win_kept (h : Host) (s : AppState) (w : Z) :
  pendingWinAttempts s = Some w ->
  isEmpty (trim (playerName s)) = false ->
  (List.length (leaderboard s) < 50)%nat ->
  let entry := newEntry h s (trim (playerName s)) w in
  let next := leaderboard (fst (handleSaveWin localeCompare h s)) in
  Permutation (entry :: leaderboard s) next /\
  In entry next /\
  (forall e, In e (leaderboard s) -> In e next) /\
  StronglySorted (fun a b => cmp a b <= 0) next.
Proof.
  intros Hp Hn Hlen entry next.
  assert (Hnext : next = rank (entry :: leaderboard s)).
  { subst next. rewrite (saveWin_saved localeCompare h s w Hp Hn).
    cbn [fst leaderboard setLeaderboard]. fold entry.
    apply firstn_all2. subst rank. unfold sortLeaderboard.
    rewrite Array_sort_length. cbn [List.length]. lia. }
  assert (Hperm : Permutation (entry :: leaderboard s) next)
    by (rewrite Hnext; apply Array_sort_perm).
  split; [exact Hperm|]. split; [|split].
  - apply (Permutation_in _ Hperm). left. reflexivity.
  - intros e He. apply (Permutation_in _ Hperm). right. exact He.
  - rewrite Hnext. apply Array_sort_sorted.
    apply compareEntries_consistent, localeCompare_consistent.
Qed.

End MoreRanking.

Lemma ranking_idempotent_witness :
  sortLeaderboard codeUnitCompare [Bo; Dee; Cy; Ann] = [Bo; Dee; Cy; Ann] /\
  sortLeaderboard codeUnitCompare
    (sortLeaderboard codeUnitCompare [Ann; Cy; Dee; Bo])
  = sortLeaderboard codeUnitCompare [Ann; Cy; Dee; Bo].
Proof.
  destruct (ranking_idempotent codeUnitCompare codeUnitCompare_consistent
              [Bo; Dee; Cy; Ann]) as (_ & _ & Hid).
  destruct (ranking_idempotent codeUnitCompare codeUnitCompare_consistent
              [Ann; Cy; Dee; Bo]) as (Hidem & _ & _).
  split; [|exact Hidem].
  apply Hid.
  repeat (constructor; [|repeat constructor; vm_compute; discriminate]).
  constructor.
Defined.

Lemma ranking_stable_witness :
  filter (fun y => compareEntries codeUnitCompare (oldEntry 6 (toISOString host) 0) y =? 0)
    (sortLeaderboard codeUnitCompare (Ann :: fiftyTied))
  = fiftyTied.
Proof.
  rewrite (ranking_stable codeUnitCompare codeUnitCompare_consistent).
  vm_compute. reflexivity.
Defined.

Lemma saved_win_kept_witness :
  In (newEntry host (wonWith (lit " Zed ") [Ann; Bo; Cy]) (lit "Zed") 6)
    (leaderboard
       (fst (handleSaveWin codeUnitCompare host
               (wonWith (lit " Zed ") [Ann; Bo; Cy])))).
Proof.
  destruct (saved_win_kept codeUnitCompare codeUnitCompare_consistent host
              (wonWith (lit " Zed ") [Ann; Bo; Cy]) 6 eq_refl eq_refl)
    as (_ & Hin & _).
  - vm_compute. lia.
  - exact Hin.
Defined.

(** ** The target of a round *)

Lemma rne_div_nonneg (x y : Z) : 0 <= x -> 0 < y -> 0 <= rne_div x y.
Proof.
  intros Hx Hy. unfold rne_div.
  assert (0 <= x / y) by (apply Z.div_pos; lia).
  destruct (2 * (x mod y) ?= y); [destruct (Z.even (x / y))| |]; lia.
Qed.

Lemma rne_div_lt (x y b : Z) :
  0 <= x -> 0 < y -> 2 * x + y < 2 * y * b -> rne_div x y < b.
Proof.
  intros Hx Hy H. unfold rne_div.
  pose proof (Z.div_mod x y ltac:(lia)) as E.
  pose proof (Z.mod_pos_bound x y Hy) as [Hr0 Hr1].
  set (q := x / y) in *. set (r := x mod y) in *.
  assert (Hq : q < b) by nia.
  destruct (Z.compare_spec (2 * r) y) as [Hc|Hc|Hc].
  - destruct (Z.even q); [exact Hq | nia].
  - exact Hq.
  - nia.
Qed.

Lemma binade_bounds (n d : Z) :
  -1074 <= binade n d <= Z.max (Z.log2 n - Z.log2 d - 52) (-1074).
Proof.
  unfold binade. destruct (scale2 n d _) as [x y].
  destruct (x <? y * 2 ^ 52); lia.
Qed.

Lemma floor_mulInt_range (u : Random) (k : Z) :
  isUnitDouble u = true -> 1 <= k < 2 ^ 52 ->
  0 <= Math_floor (mulInt u k) <= k - 1.
Proof.
  unfold isUnitDouble. rewrite !andb_true_iff, Z.leb_le, Z.ltb_lt.
  intros [[Hm0 Hm53] Hlt] [Hk1 Hk52].
  unfold mulInt.
  assert (Hp0 : 0 <= mant u * k) by nia.
  replace (mant u * k <? 0) with false by (symmetry; apply Z.ltb_ge; exact Hp0).
  rewrite (Z.abs_eq _ Hp0).
  destruct (Z.leb_spec 0 (expo u)) as [He|He].
  { apply Z.eqb_eq in Hlt. rewrite Hlt. cbn. lia. }
  apply Z.ltb_lt in Hlt.
  set (m := mant u) in *. set (D := 2 ^ (- expo u)) in *.
  assert (HD : 0 < D) by (apply Z.pow_pos_nonneg; lia).
  unfold round64.
  destruct (Z.eqb_spec (m * k) 0) as [E|E]; [cbn; lia|].
  assert (Hp : 0 < m * k) by lia.
  pose proof (binade_bounds (m * k) D) as [Hlo Hhi].
  assert (HlogD : Z.log2 D = - expo u) by (apply Z.log2_pow2; lia).
  pose proof (Z.log2_spec (m * k) Hp) as [Hlp _].
  assert (Hlogk : Z.log2 k < 52) by (apply Z.log2_lt_pow2; lia).
  assert (Hlogp : Z.log2 (m * k) <= Z.log2 k - expo u).
  { replace (Z.log2 k - expo u) with (Z.log2 (k * 2 ^ (- expo u))).
    - apply Z.log2_le_mono. fold D. nia.
    - rewrite Z.log2_mul_pow2 by lia. lia. }
  set (e' := binade (m * k) D) in *.
  assert (Hneg : e' < 0) by lia.
  unfold scale2. destruct (Z.leb_spec 0 e'); [lia|].
  set (j := - e') in *.
  assert (H2j : 0 < 2 ^ j) by (apply Z.pow_pos_nonneg; lia).
  replace (971 <? e') with false by (symmetry; apply Z.ltb_ge; lia).
  replace (e' =? 971) with false by (symmetry; apply Z.eqb_neq; lia).
  cbn [orb andb Math_floor].
  destruct (Z.leb_spec 0 e'); [lia|]. fold j.
  assert (Hm'0 : 0 <= rne_div (m * k * 2 ^ j) D)
    by (apply rne_div_nonneg; nia).
  assert (HT : 1 <= k * 2 ^ j) by nia.
  assert (Hm'K : rne_div (m * k * 2 ^ j) D < k * 2 ^ j).
  { apply rne_div_lt; [nia | exact HD |].
    replace (m * k * 2 ^ j) with (m * (k * 2 ^ j)) by ring.
    assert (Hkey : D < 2 * (k * 2 ^ j) * (D - m)).
    { destruct (Z.le_gt_cases (- expo u) 53) as [Hsmall|Hbig].
      - assert (HD53 : D <= 2 ^ 53)
          by (apply Z.pow_le_mono_r; lia).
        assert (H2T : D < 2 * (k * 2 ^ j)).
        { destruct (Z.le_gt_cases (52 - expo u - Z.log2 (m * k)) j) as [Hj|Hj].
          - assert (2 ^ 52 * D <= 2 ^ j * 2 ^ Z.log2 (m * k)).
            { pose proof (Z.log2_nonneg (m * k)).
              unfold D.
              rewrite <- (Z.pow_add_r 2 52 (- expo u)) by lia.
              rewrite <- (Z.pow_add_r 2 j (Z.log2 (m * k))) by lia.
              apply Z.pow_le_mono_r; lia. }
            assert (Hmk : m * k < k * D) by nia.
            assert (Ha1 : 2 ^ j * 2 ^ Z.log2 (m * k) <= 2 ^ j * (m * k))
              by (apply Z.mul_le_mono_nonneg_l; lia).
            assert (Ha2 : 2 ^ j * (m * k) < 2 ^ j * (k * D))
              by (apply Z.mul_lt_mono_pos_l; lia).
            assert (Ha3 : 2 ^ 52 * D < (k * 2 ^ j) * D) by lia.
            assert (Ha4 : 2 ^ 52 < k * 2 ^ j) by nia.
            change (2 ^ 53) with (2 * 2 ^ 52) in HD53. lia.
          - assert (j = 1074) by lia.
            assert (2 ^ 53 < 2 ^ j) by (apply Z.pow_lt_mono_r; lia).
            nia. }
        assert (2 * (k * 2 ^ j) * 1 <= 2 * (k * 2 ^ j) * (D - m))
          by (apply Z.mul_le_mono_nonneg_l; lia).
        lia.
      - assert (HD54 : 2 ^ 54 <= D) by (apply Z.pow_le_mono_r; lia).
        change (2 ^ 54) with (2 * 2 ^ 53) in HD54.
        assert (1 * (2 * (D - m)) <= (k * 2 ^ j) * (2 * (D - m)))
          by (apply Z.mul_le_mono_nonneg_r; lia).
        lia. }
    generalize dependent (k * 2 ^ j). intros T. intros. nia. }
  split.
  - apply Z.div_pos; lia.
  - assert (rne_div (m * k * 2 ^ j) D / 2 ^ j < k)
      by (apply Z.div_lt_upper_bound; nia).
    lia.
Qed.

(** X5. For a value of [Math.random()], [randomIntInclusive(min, max)]
    is an integer of the range, both ends included, whenever the range
    is not empty and holds fewer than [2^52] integers: the rounding of
    the product never reaches [max + 1]. *)
Theorem randomIntInclusive_in_range (u : Random) (min max : Z) :
  isUnitDouble u = true ->
  min <= max ->
  max - min + 1 < 2 ^ 52 ->
  min <= randomIntInclusive u min max <= max.
Proof.
  intros Hu Hle Hw. unfold randomIntInclusive.
  pose proof (floor_mulInt_range u (max - min + 1) Hu). lia.
Qed.

Lemma randomIntInclusive_in_range_witness :
  1 <= randomIntInclusive {| mant := 2 ^ 53 - 1; expo := -53 |} 1 100 <= 100.
Proof.
  apply randomIntInclusive_in_range; [reflexivity | lia | reflexivity].
Defined.

(** ** The component over any sequence of events *)

Lemma configOf_key (k : DifficultyKey) : key (configOf k) = k.
Proof. destruct k; reflexivity. Qed.

Lemma configOf_width (k : DifficultyKey) :
  min (configOf k) <= max (configOf k) /\
  max (configOf k) - min (configOf k) + 1 < 2 ^ 52.
Proof. destruct k; split; cbn; lia. Qed.

Lemma startNewGame_target (u : Random) (k : DifficultyKey) (s : AppState) :
  isUnitDouble u = true ->
  min (configOf k) <= target (fst (startNewGame u k s)) <= max (configOf k).
Proof.
  intros Hu. destruct (configOf_width k) as [Hle Hw].
  destruct (startNewGame_round u k s) as (_ & _ & _ & ->).
  pose proof (floor_mulInt_range u (max (configOf k) - min (configOf k) + 1) Hu).
  unfold randomIntInclusive. lia.
Qed.

Section Traces.

Variable localeCompare : jsstring -> jsstring -> Z.

Lemma step_target (ev : Event) (s : AppState) :
  wellDrawn ev = true -> target_ok s -> target_ok (step localeCompare ev s).
Proof.
  intros Hw Ht. unfold target_ok in *.
  destruct ev; unfold step, handle; cbn in Hw; try exact Ht.
  - destruct (submit_round s) as (Hk & Htg & _).
    unfold difficulty in *. rewrite Hk, Htg. exact Ht.
  - unfold pressDifficulty.
    destruct (DifficultyKey_eqb k (difficultyKey s)); [exact Ht|].
    cbv zeta.
    change (min (configOf k)
            <= target (fst (startNewGame u (key (configOf k))
                              (fst (setDifficultyKey k s))))
            <= max (configOf k)).
    rewrite configOf_key. apply startNewGame_target, Hw.
  - unfold pressNewGame, difficulty. rewrite configOf_key.
    destruct (startNewGame_round u (difficultyKey s) s) as (_ & _ & Hk & _).
    rewrite Hk. apply startNewGame_target, Hw.
  - unfold handleSaveWin.
    destruct (pendingWinAttempts s); [|exact Ht].
    destruct (isEmpty (trim (playerName s))); exact Ht.
Qed.

Lemma run_snoc (events : list Event) (ev : Event) (s : AppState) :
  run localeCompare (events ++ [ev]) s
  = step localeCompare ev (run localeCompare events s).
Proof. unfold run. rewrite fold_left_app. reflexivity. Qed.

Lemma run_reachable (u : Random) (events : list Event) :
  reachable localeCompare (run localeCompare events (initialState u)).
Proof.
  induction events as [|ev events IH] using rev_ind.
  - apply reachable_initial.
  - rewrite run_snoc. apply reachable_step, IH.
Qed.

Lemma run_target (u : Random) (events : list Event) :
  isUnitDouble u = true -> forallb wellDrawn events = true ->
  target_ok (run localeCompare events (initialState u)).
Proof.
  intros Hu. induction events as [|ev events IH] using rev_ind; intros Hw.
  - change (min (configOf easy)
            <= randomIntInclusive u (min (configOf easy)) (max (configOf easy))
            <= max (configOf easy)).
    destruct (configOf_width easy) as [Hle Hwd].
    pose proof (floor_mulInt_range u
                  (max (configOf easy) - min (configOf easy) + 1) Hu).
    unfold randomIntInclusive. lia.
  - rewrite forallb_app in Hw. apply andb_true_iff in Hw.
    destruct Hw as [Hes Hev]. cbn in Hev. rewrite andb_true_r in Hev.
    rewrite run_snoc. apply step_target; [exact Hev | apply IH, Hes].
Qed.

(** X6. Whatever the user does, in any order, and whenever the writes
    and the load settle, the component keeps its round sound: the
    target is in the range of the difficulty on display, the attempts
    are between 0 and its limit and below it while the round is open,
    an open round has no pending win and no name prompt, and a pending
    win is that of the round on display, with its count of attempts. *)
Theorem component_invariant (u : Random) (events : list Event) :
  isUnitDouble u = true ->
  forallb wellDrawn events = true ->
  let s := run localeCompare events (initialState u) in
  min (difficulty s) <= target s <= max (difficulty s) /\
  0 <= attempts s <= maxAttempts (difficulty s) /\
  (gameOver s = false ->
   attempts s < maxAttempts (difficulty s) /\
   pendingWinAttempts s = None /\ nameModalOpen s = false) /\
  (forall w, pendingWinAttempts s = Some w ->
             w = attempts s /\ 1 <= w <= maxAttempts (difficulty s) /\
             gameOver s = true).
Proof.
  intros Hu Hw s.
  pose proof (run_target u events Hu Hw) as Ht. fold s in Ht.
  destruct (reachable_ok localeCompare s (run_reachable u events))
    as [[Hb Ho] [Hm Hp]].
  split; [exact Ht|]. split; [exact Hb|]. split.
  - intros Hg. split; [exact (Ho Hg)|].
    assert (Hnone : pendingWinAttempts s = None).
    { destruct (pendingWinAttempts s) as [w|] eqn:E; [|reflexivity].
      destruct (Hp w eq_refl) as (_ & _ & H). congruence. }
    split; [exact Hnone|].
    destruct (nameModalOpen s) eqn:E; [|reflexivity].
    exfalso. exact (Hm eq_refl Hnone).
  - intros w E. destruct (Hp w E) as (-> & H1 & Hg).
    repeat split; try assumption; lia.
Qed.

End Traces.

Lemma component_invariant_witness :
  let s :=
    run codeUnitCompare
      [NewGamePressed aDraw; DifficultyPressed aDraw hard;
       GuessChanged (lit "50x"); GuessSubmitted;
       GuessChanged (lit "32"); GuessSubmitted;
       NameChanged (lit "Eve"); SavePressed host]
      (initialState aDraw) in
  (target s = 32 /\ attempts s = 2 /\ gameOver s = true) /\
  1 <= target s <= 100 /\ 0 <= attempts s <= 10.
Proof.
  cbv zeta.
  destruct (component_invariant codeUnitCompare aDraw
              [NewGamePressed aDraw; DifficultyPressed aDraw hard;
               GuessChanged (lit "50x"); GuessSubmitted;
               GuessChanged (lit "32"); GuessSubmitted;
               NameChanged (lit "Eve"); SavePressed host]
              eq_refl eq_refl) as (Ht & Ha & _).
  split; [|split; [exact Ht | exact Ha]].
  split; [|split]; vm_compute; reflexivity.
Defined.

(** ** What the guess field can hold *)

Lemma filter_digits (t : jsstring) : forallb isDigit (filter isDigit t) = true.
Proof.
  induction t as [|c r IH]; [reflexivity|].
  cbn [filter]. destruct (isDigit c) eqn:E; [|exact IH].
  cbn [forallb]. rewrite E, IH. reflexivity.
Qed.

Lemma digit_not_whitespace (c : N) : isDigit c = true -> isWhiteSpace c = false.
Proof. intros H. each_digit H; reflexivity. Qed.

Lemma forallb_rev {A : Type} (p : A -> bool) (l : list A) :
  forallb p (rev l) = forallb p l.
Proof.
  induction l as [|x t IH]; [reflexivity|].
  cbn [rev forallb]. rewrite forallb_app, IH. cbn. rewrite andb_true_r.
  apply andb_comm.
Qed.

Lemma trimStart_digits (ds : jsstring) :
  forallb isDigit ds = true -> trimStart ds = ds.
Proof.
  destruct ds as [|c r]; [reflexivity|].
  cbn [forallb]. rewrite andb_true_iff. intros [Hc _].
  apply trimStart_fixed, digit_not_whitespace, Hc.
Qed.

Lemma trim_digits (ds : jsstring) :
  forallb isDigit ds = true -> trim ds = ds.
Proof.
  intros H. unfold trim, trimEnd.
  rewrite (trimStart_digits ds H).
  rewrite trimStart_digits by (rewrite forallb_rev; exact H).
  apply rev_involutive.
Qed.

Lemma splitSign_digits (ds : jsstring) :
  forallb isDigit ds = true -> splitSign ds = (false, ds).
Proof.
  destruct ds as [|c r]; [reflexivity|].
  cbn [forallb]. rewrite andb_true_iff. intros [Hc _].
  each_digit Hc; reflexivity.
Qed.

Lemma Number_digits (ds : jsstring) :
  isEmpty ds = false -> forallb isDigit ds = true ->
  Number ds = round64 false (digitsValue 10 ds) 1.
Proof.
  intros He Hd.
  rewrite (Number_base10 ds (trim_digits ds Hd)).
  - rewrite (splitSign_digits ds Hd). reflexivity.
  - unfold spec_isBase10Integer. rewrite (splitSign_digits ds Hd), He, Hd.
    reflexivity.
Qed.

Lemma intOf_round64_nonneg (n d : Z) :
  0 <= n -> 0 < d -> 0 <= intOf (round64 false n d).
Proof.
  intros Hn Hd. unfold round64.
  destruct (n =? 0); [cbn; lia|].
  assert (Hs : forall e, 0 <= fst (scale2 n d e) /\ 0 < snd (scale2 n d e)).
  { intros e. unfold scale2. destruct (Z.leb_spec 0 e); cbn [fst snd].
    - split; [exact Hn|]. apply Z.mul_pos_pos; [exact Hd|].
      apply Z.pow_pos_nonneg; lia.
    - split; [|exact Hd]. apply Z.mul_nonneg_nonneg; [exact Hn|].
      apply Z.pow_nonneg. lia. }
  specialize (Hs (binade n d)).
  destruct (scale2 n d (binade n d)) as [x y]. cbn [fst snd] in Hs.
  destruct Hs as [Hx Hy].
  pose proof (rne_div_nonneg x y Hx Hy) as Hm.
  destruct ((971 <? binade n d) || _); [cbn; lia|].
  cbn [intOf]. destruct (Z.leb_spec 0 (binade n d)).
  - apply Z.mul_nonneg_nonneg; [exact Hm|]. apply Z.pow_nonneg. lia.
  - apply Z.div_pos; [exact Hm|]. apply Z.pow_pos_nonneg; lia.
Qed.

(** X7. Whatever is typed in the guess field, the field holds its
    decimal digits only.  So a submitted guess is read in base 10: an
    empty field is rejected, digits of a value below [2^53] are accepted
    as that value, and no accepted guess is negative. *)
Theorem typed_guess (t : jsstring) (s : AppState) :
  let typed := guessText (fst (onChangeText t s)) in
  typed = filter isDigit t /\
  forallb isDigit typed = true /\
  (typed = [] -> parseGuess typed = None) /\
  (typed <> [] -> digitsValue 10 typed < 2 ^ 53 ->
   parseGuess typed = Some (digitsValue 10 typed)) /\
  (forall guess, parseGuess typed = Some guess -> 0 <= guess).
Proof.
  cbv zeta. change (guessText (fst (onChangeText t s))) with (filter isDigit t).
  pose proof (filter_digits t) as Hd.
  generalize dependent (filter isDigit t). intros typed Hd.
  split; [reflexivity|]. split; [exact Hd|]. split; [|split].
  - intros ->. reflexivity.
  - intros Hne Hv.
    assert (He : isEmpty typed = false) by (destruct typed; [congruence | reflexivity]).
    unfold parseGuess. rewrite (trim_digits typed Hd), He.
    rewrite (Number_digits typed He Hd).
    destruct (round64_integer false (digitsValue 10 typed)) as (Hf & Hi & Hval).
    { split; [apply digitsValue_nonneg, Hd | exact Hv]. }
    rewrite Hf, Hi, Hval. reflexivity.
  - intros guess. unfold parseGuess. rewrite (trim_digits typed Hd).
    destruct (isEmpty typed) eqn:He; [discriminate|].
    rewrite (Number_digits typed He Hd).
    destruct (negb _ || negb _); [discriminate|].
    intros H. injection H as <-.
    apply intOf_round64_nonneg; [apply digitsValue_nonneg, Hd | lia].
Qed.

Lemma typed_guess_witness :
  guessText (fst (onChangeText (lit "-1e2 px") easyRound)) = lit "12" /\
  parseGuess (guessText (fst (onChangeText (lit "-1e2 px") easyRound)))
  = Some 12 /\
  parseGuess (guessText (fst (onChangeText (lit "two") easyRound))) = None.
Proof.
  destruct (typed_guess (lit "-1e2 px") easyRound) as (Hf & _ & _ & Hacc & _).
  destruct (typed_guess (lit "two") easyRound) as (_ & _ & Hempty & _).
  split; [exact Hf|]. split.
  - apply Hacc; [vm_compute; discriminate | reflexivity].
  - apply Hempty. reflexivity.
Defined.

(** ** Printing a number and reading it back *)

Lemma digits_of_uint (d : Decimal.uint) :
  forallb isDigit (lit (NilEmpty.string_of_uint d)) = true /\
  forall acc,
    fold_left (fun a c => a * 10 + digitValue c)
      (lit (NilEmpty.string_of_uint d)) acc
    = uintValue d acc.
Proof.
  induction d as [|d [IHd IHv]|d [IHd IHv]|d [IHd IHv]|d [IHd IHv]
                  |d [IHd IHv]|d [IHd IHv]|d [IHd IHv]|d [IHd IHv]
                  |d [IHd IHv]|d [IHd IHv]];
    (split; [try reflexivity; exact IHd
            | intros acc; try reflexivity; exact (IHv _)]).
Qed.

Lemma uintValue_acc (d : Decimal.uint) (acc : positive) :
  uintValue d (Zpos acc) = Zpos (Pos.of_uint_acc d acc).
Proof.
  revert acc. induction d; intros acc; cbn [uintValue Pos.of_uint_acc];
    try reflexivity;
    match goal with
    | |- uintValue _ ?a = Zpos (Pos.of_uint_acc _ ?b) =>
        replace a with (Zpos b) by lia; apply IHd
    end.
Qed.

Lemma uintValue_of_uint (d : Decimal.uint) :
  uintValue d 0 = Z.of_N (Pos.of_uint d).
Proof.
  induction d; cbn [uintValue Pos.of_uint]; try reflexivity;
    try exact IHd; apply (uintValue_acc d).
Qed.

Lemma digits_of_positive (p : positive) :
  let ds := lit (NilEmpty.string_of_uint (Pos.to_uint p)) in
  isEmpty ds = false /\ forallb isDigit ds = true /\
  digitsValue 10 ds = Zpos p.
Proof.
  cbv zeta. destruct (digits_of_uint (Pos.to_uint p)) as [Hd Hv].
  split; [|split; [exact Hd|]].
  - pose proof (DecimalPos.Unsigned.to_uint_nonnil p) as Hn.
    destruct (Pos.to_uint p); [contradiction| | | | | | | | | |]; reflexivity.
  - unfold digitsValue. rewrite Hv, uintValue_of_uint.
    rewrite DecimalPos.Unsigned.of_to. reflexivity.
Qed.

Lemma Number_toString_cases (z : Z) :
  match z with
  | Z0 => Number_toString z = lit "0"
  | Zpos p => Number_toString z = lit (NilEmpty.string_of_uint (Pos.to_uint p))
  | Zneg p =>
      Number_toString z
      = 45%N :: lit (NilEmpty.string_of_uint (Pos.to_uint p))
  end.
Proof.
  destruct z as [|p|p]; [reflexivity| |];
    unfold Number_toString; cbn [Z.to_int NilZero.string_of_int];
    pose proof (DecimalPos.Unsigned.to_uint_nonnil p) as Hn;
    unfold NilZero.string_of_uint;
    destruct (Pos.to_uint p); try contradiction; reflexivity.
Qed.

Lemma trim_signed_digits (ds : jsstring) :
  isEmpty ds = false -> forallb isDigit ds = true ->
  trim (45%N :: ds) = 45%N :: ds.
Proof.
  intros He Hd. unfold trim, trimEnd.
  rewrite (trimStart_fixed 45 ds) by reflexivity.
  cbn [rev].
  assert (Hr : forallb isDigit (rev ds) = true)
    by (rewrite forallb_rev; exact Hd).
  destruct (rev ds) as [|c r] eqn:E.
  - apply (f_equal (@rev N)) in E. rewrite rev_involutive in E.
    subst ds. discriminate He.
  - cbn [forallb] in Hr. apply andb_true_iff in Hr. destruct Hr as [Hc _].
    cbn [app]. rewrite trimStart_fixed by (apply digit_not_whitespace, Hc).
    change (c :: r ++ [45%N]) with ((c :: r) ++ [45%N]).
    rewrite <- E, rev_app_distr, rev_involutive. reflexivity.
Qed.

(** X8. An integer of absolute value below [2^53], printed as the
    program prints numbers in its hints, is read back by [parseGuess]
    as itself: the bounds and the target that a hint gives are guesses
    that parse. *)
Theorem printed_number_parses (z : Z) :
  Z.abs z < 2 ^ 53 ->
  parseGuess (Number_toString z) = Some z.
Proof.
  intros Hz. pose proof (Number_toString_cases z) as Hc.
  destruct z as [|p|p].
  - rewrite Hc. reflexivity.
  - destruct (digits_of_positive p) as (He & Hd & Hv). cbv zeta in *.
    rewrite Hc.
    set (ds := lit (NilEmpty.string_of_uint (Pos.to_uint p))) in *.
    rewrite parseGuess_base10; rewrite ?(trim_digits ds Hd);
      unfold spec_isBase10Integer, spec_base10Value;
      rewrite ?(splitSign_digits ds Hd), ?He, ?Hd, ?Hv;
      [reflexivity | reflexivity | exact Hz].
  - destruct (digits_of_positive p) as (He & Hd & Hv). cbv zeta in *.
    rewrite Hc.
    set (ds := lit (NilEmpty.string_of_uint (Pos.to_uint p))) in *.
    assert (Hs : splitSign (45%N :: ds) = (true, ds)) by reflexivity.
    rewrite parseGuess_base10; rewrite ?(trim_signed_digits ds He Hd);
      unfold spec_isBase10Integer, spec_base10Value;
      rewrite ?Hs, ?He, ?Hd, ?Hv;
      [reflexivity | reflexivity | exact Hz].
Qed.

Lemma printed_number_parses_witness :
  parseGuess (Number_toString 100) = Some 100 /\
  parseGuess (Number_toString (- 7)) = Some (- 7).
Proof.
  split; apply printed_number_parses; reflexivity.
Defined.

(** ** The collection over any sequence of events *)

Section Board.

Variable localeCompare : jsstring -> jsstring -> Z.
Hypothesis localeCompare_consistent : consistent localeCompare.

Lemma newEntry_ok (h : Host) (s : AppState) (w : Z) :
  round_ok s -> prompt_ok s ->
  pendingWinAttempts s = Some w ->
  isEmpty (trim (playerName s)) = false ->
  entry_ok (newEntry h s (trim (playerName s)) w).
Proof.
  intros [[_ Hmax] _] [_ Hp] Hw Hn.
  destruct (Hp w Hw) as (-> & H1 & _).
  unfold entry_ok, newEntry. cbn.
  unfold difficulty in *. rewrite configOf_key.
  repeat split; try assumption. apply trim_idempotent.
Qed.

Lemma saved_board_ok (e : LeaderboardEntry) (l : list LeaderboardEntry) :
  entry_ok e -> Forall entry_ok l ->
  board_ok localeCompare
    (firstn 50 (sortLeaderboard localeCompare (e :: l))).
Proof.
  intros He Hl.
  pose proof (compareEntries_consistent _ localeCompare_consistent) as Hc.
  split; [|split].
  - apply Forall_forall. intros x Hx. apply In_firstn in Hx.
    apply (Permutation_in _
             (Permutation_sym
                (Array_sort_perm (compareEntries localeCompare) (e :: l))))
      in Hx.
    destruct Hx as [<-|Hx]; [exact He|].
    rewrite Forall_forall in Hl. exact (Hl x Hx).
  - apply firstn_sorted, Array_sort_sorted, Hc.
  - apply firstn_le_length.
Qed.

Lemma step_board (ev : Event) (s : AppState) :
  reachable localeCompare s -> wellLoaded localeCompare ev ->
  board_ok localeCompare (leaderboard s) ->
  board_ok localeCompare (leaderboard (step localeCompare ev s)).
Proof.
  intros Hr Hw Hb.
  destruct (reachable_ok localeCompare s Hr) as [Hround Hprompt].
  destruct ev; unfold step, handle; try exact Hb.
  - unfold handleSubmitGuess.
    destruct (gameOver s); [exact Hb|].
    destruct (parseGuess (guessText s)) as [guess|]; [|exact Hb].
    destruct ((guess <? min (difficulty s)) || (max (difficulty s) <? guess));
      [exact Hb|].
    cbv zeta. destruct (guess =? target s); [exact Hb|].
    destruct (attemptLimitReached s (attempts s + 1));
      destruct (guess <? target s); exact Hb.
  - unfold pressDifficulty.
    destruct (DifficultyKey_eqb k (difficultyKey s)); exact Hb.
  - unfold handleSaveWin.
    destruct (pendingWinAttempts s) as [w|] eqn:Ew; [|exact Hb].
    destruct (isEmpty (trim (playerName s))) eqn:En; [exact Hb|].
    apply saved_board_ok; [|apply Hb].
    apply newEntry_ok; assumption.
  - split; [constructor|]. split; [constructor | cbn; lia].
  - exact Hw.
Qed.

(** X9. The collection on display is always a ranked one: after any
    sequence of events, the load, if it ends, bringing a collection
    that was saved, the leaderboard holds 50 rows at most, in rank
    order, each with a trimmed name that is not empty, attempts between
    1 and the limit of its difficulty and the upper bound of that
    difficulty. *)
Theorem leaderboard_invariant (u : Random) (events : list Event) :
  Forall (wellLoaded localeCompare) events ->
  let board := leaderboard (run localeCompare events (initialState u)) in
  (List.length board <= 50)%nat /\
  StronglySorted (fun a b => compareEntries localeCompare a b <= 0) board /\
  Forall entry_ok board.
Proof.
  intros Hw.
  assert (H : board_ok localeCompare
                (leaderboard (run localeCompare events (initialState u)))).
  { induction events as [|ev events IH] using rev_ind.
    - split; [constructor|]. split; [constructor | cbn; lia].
    - apply Forall_app in Hw. destruct Hw as [Hes Hev].
      inversion Hev as [|? ? Hev' _]; subst.
      rewrite run_snoc.
      apply step_board; [apply run_reachable | exact Hev' | apply IH, Hes]. }
  destruct H as (Hall & Hsorted & Hlen). cbv zeta. auto.
Qed.

End Board.

Lemma loaded_board_ok : board_ok codeUnitCompare [Bo; Cy; Ann].
Proof.
  split; [|split].
  - repeat constructor; vm_compute; try reflexivity; discriminate.
  - repeat (constructor; [|repeat constructor; vm_compute; discriminate]).
    constructor.
  - cbn. lia.
Qed.

Lemma leaderboard_invariant_witness :
  let board :=
    leaderboard
      (run codeUnitCompare
         [LeaderboardLoaded [Bo; Cy; Ann]; NewGamePressed aDraw;
          GuessChanged (lit "7"); GuessSubmitted;
          NameChanged (lit " Eve "); SavePressed host; SaveSettled]
         (initialState aDraw)) in
  map Entry.playerName board = [lit "Eve"; lit "Bo"; lit "Cy"; lit "Ann"] /\
  (List.length board <= 50)%nat /\
  Forall entry_ok board.
Proof.
  cbv zeta.
  destruct (leaderboard_invariant codeUnitCompare codeUnitCompare_consistent
              aDraw
              [LeaderboardLoaded [Bo; Cy; Ann]; NewGamePressed aDraw;
               GuessChanged (lit "7"); GuessSubmitted;
               NameChanged (lit " Eve "); SavePressed host; SaveSettled])
    as (Hlen & _ & Hall).
  - constructor; [exact loaded_board_ok|].
    repeat constructor.
  - split; [vm_compute; reflexivity|]. split; [exact Hlen | exact Hall].
Defined.

(** ** The stored collection is read back as it was written *)

Import JSON.

Lemma hex_cases (d : N) : (d < 16)%N ->
  (d = 0 \/ d = 1 \/ d = 2 \/ d = 3 \/ d = 4 \/ d = 5 \/ d = 6 \/ d = 7 \/
   d = 8 \/ d = 9 \/ d = 10 \/ d = 11 \/ d = 12 \/ d = 13 \/ d = 14 \/ d = 15)%N.
Proof. lia. Qed.

Lemma hexDigitChar_value (d : N) : (d < 16)%N ->
  isHexDigit (hexDigitChar d) = true /\ digitValue (hexDigitChar d) = Z.of_N d.
Proof.
  intros H. apply hex_cases in H.
  repeat (destruct H as [H|H]; [subst; split; reflexivity|]).
  subst; split; reflexivity.
Qed.

Lemma unicodeEscape_parses (c : N) (X : jsstring) :
  (c < 65536)%N ->
  stringBody (unicodeEscape c ++ X)
  = match stringBody X with
    | Ok t r => Ok (c :: t) r
    | other => other
    end.
Proof.
  intros Hc. unfold unicodeEscape.
  set (h1 := hexDigitChar (c / 4096 mod 16)).
  set (h2 := hexDigitChar (c / 256 mod 16)).
  set (h3 := hexDigitChar (c / 16 mod 16)).
  set (h4 := hexDigitChar (c mod 16)).
  change (stringBody ([92%N; 117%N; h1; h2; h3; h4] ++ X))
    with (if forallb isHexDigit [h1; h2; h3; h4] then
            match stringBody X with
            | Ok t rest => Ok (Z.to_N (digitsValue 16 [h1; h2; h3; h4]) :: t) rest
            | other => other
            end
          else SyntaxError).
  destruct (hexDigitChar_value (c / 4096 mod 16)) as [A1 B1];
    [apply N.mod_lt; discriminate|].
  destruct (hexDigitChar_value (c / 256 mod 16)) as [A2 B2];
    [apply N.mod_lt; discriminate|].
  destruct (hexDigitChar_value (c / 16 mod 16)) as [A3 B3];
    [apply N.mod_lt; discriminate|].
  destruct (hexDigitChar_value (c mod 16)) as [A4 B4];
    [apply N.mod_lt; discriminate|].
  fold h1 in A1, B1. fold h2 in A2, B2. fold h3 in A3, B3. fold h4 in A4, B4.
  cbn [forallb]. rewrite A1, A2, A3, A4. cbn [andb].
  assert (E : digitsValue 16 [h1; h2; h3; h4] = Z.of_N c).
  { unfold digitsValue. cbn [fold_left]. rewrite B1, B2, B3, B4.
    rewrite !N2Z.inj_mod, !N2Z.inj_div. change (Z.of_N 16) with 16.
    change (Z.of_N 4096) with 4096. change (Z.of_N 256) with 256.
    assert (Hz : 0 <= Z.of_N c < 65536) by lia.
    clear - Hz. generalize dependent (Z.of_N c). intros z Hz.
    Z.div_mod_to_equations. lia. }
  rewrite E, N2Z.id. reflexivity.
Qed.

Lemma literal_parses (c : N) (X : jsstring) :
  N.eqb c 34 = false -> N.eqb c 92 = false -> (c <? 32)%N = false ->
  stringBody (c :: X)
  = match stringBody X with
    | Ok t r => Ok (c :: t) r
    | other => other
    end.
Proof. intros H1 H2 H3. cbn [stringBody]. rewrite H1, H2, H3. reflexivity. Qed.

Lemma quoteUnit_parses (c : N) (X : jsstring) :
  stringBody (quoteUnit c ++ X)
  = match stringBody X with
    | Ok t r => Ok (c :: t) r
    | other => other
    end.
Proof.
  unfold quoteUnit, shortEscape.
  destruct (N.eqb_spec c 8) as [->|H8]; [reflexivity|].
  destruct (N.eqb_spec c 9) as [->|H9]; [reflexivity|].
  destruct (N.eqb_spec c 10) as [->|H10]; [reflexivity|].
  destruct (N.eqb_spec c 12) as [->|H12]; [reflexivity|].
  destruct (N.eqb_spec c 13) as [->|H13]; [reflexivity|].
  destruct (N.eqb_spec c 34) as [->|H34]; [reflexivity|].
  destruct (N.eqb_spec c 92) as [->|H92]; [reflexivity|].
  destruct ((c <? 32)%N || isHighSurrogate c || isLowSurrogate c) eqn:E.
  - apply unicodeEscape_parses.
    unfold isHighSurrogate, isLowSurrogate in E.
    rewrite !orb_true_iff, !andb_true_iff, N.ltb_lt, !N.leb_le in E. lia.
  - rewrite !orb_false_iff in E. destruct E as [[E _] _].
    apply literal_parses; [apply N.eqb_neq; exact H34
                          | apply N.eqb_neq; exact H92 | exact E].
Qed.

Lemma quoteBody_cons (c d : N) (r : jsstring) :
  quoteBody (c :: d :: r)
  = if isHighSurrogate c && isLowSurrogate d then c :: d :: quoteBody r
    else quoteUnit c ++ quoteBody (d :: r).
Proof. reflexivity. Qed.

(** A quoted string is parsed as the string it quotes. *)
Lemma quoteBody_parses (s rest : jsstring) :
  stringBody (quoteBody s ++ 34%N :: rest) = Ok s rest.
Proof.
  remember (List.length s) as n eqn:Hn. revert s Hn.
  induction n as [n IH] using lt_wf_ind. intros s Hn.
  destruct s as [|c [|d r']]; [reflexivity| |].
  - cbn [quoteBody]. rewrite quoteUnit_parses. reflexivity.
  - rewrite quoteBody_cons.
    destruct (isHighSurrogate c && isLowSurrogate d) eqn:E.
    + apply andb_true_iff in E. destruct E as [Ec Ed].
      unfold isHighSurrogate in Ec. unfold isLowSurrogate in Ed.
      rewrite andb_true_iff, !N.leb_le in Ec, Ed.
      cbn [app].
      rewrite literal_parses;
        [| apply N.eqb_neq; lia | apply N.eqb_neq; lia | apply N.ltb_ge; lia].
      rewrite literal_parses;
        [| apply N.eqb_neq; lia | apply N.eqb_neq; lia | apply N.ltb_ge; lia].
      rewrite (IH (List.length r')); [reflexivity | subst n; cbn; lia | reflexivity].
    + rewrite <- app_assoc, quoteUnit_parses.
      rewrite (IH (List.length (d :: r'))); [reflexivity | subst n; cbn; lia | reflexivity].
Qed.

Lemma span_digits_then (ds : jsstring) (c : N) (rest : jsstring) :
  forallb isDigit ds = true -> isDigit c = false ->
  span isDigit (ds ++ c :: rest) = (ds, c :: rest).
Proof.
  intros Hd Hc. induction ds as [|d r IH]; cbn.
  - rewrite Hc. reflexivity.
  - cbn in Hd. apply andb_true_iff in Hd. destruct Hd as [H1 H2].
    rewrite H1, (IH H2). reflexivity.
Qed.

Lemma numberToken_digits (neg : bool) (ds : jsstring) (c : N) (rest : jsstring) :
  isEmpty ds = false -> forallb isDigit ds = true ->
  match ds with z :: _ :: _ => N.eqb z 48 = false | _ => True end ->
  separator c ->
  numberToken ((if neg then [45%N] else []) ++ ds ++ c :: rest)
  = Ok (round64 neg (digitsValue 10 ds) 1) (c :: rest).
Proof.
  intros He Hd Hz Hc.
  assert (Hcd : isDigit c = false /\ N.eqb c 46 = false /\
                (N.eqb c 101 || N.eqb c 69)%N = false)
    by (destruct Hc as [->|[->| ->]]; repeat split; reflexivity).
  destruct Hcd as (Hc1 & Hc2 & Hc3).
  assert (H45 : match ds with d :: _ => N.eqb d 45 = false | [] => True end).
  { destruct ds as [|d r]; [exact I|].
    cbn in Hd. apply andb_true_iff in Hd. destruct Hd as [H1 _].
    each_digit H1; reflexivity. }
  assert (Hlz : match ds with z :: _ :: _ => N.eqb z 48 | _ => false end = false)
    by (destruct ds as [|z [|? ?]]; try reflexivity; exact Hz).
  pose proof (span_digits_then ds c rest Hd Hc1) as Hspan.
  destruct neg.
  - cbn [app]. unfold numberToken. cbv beta iota.
    change (N.eqb 45 45) with true. cbv beta iota zeta.
    rewrite Hspan. rewrite He, Hlz. cbn [orb].
    rewrite Hc2, Hc3. cbn [List.length Z.of_nat].
    rewrite app_nil_r. unfold roundDecimal. cbn [Z.sub Z.opp Z.add Z.leb Z.compare].
    change (10 ^ 0) with 1. rewrite Z.mul_1_r. reflexivity.
  - cbn [app]. unfold numberToken.
    destruct ds as [|d r]; [discriminate He|].
    cbn [app] in Hspan |- *. cbv beta iota. rewrite H45. cbv beta iota zeta.
    rewrite Hspan. rewrite He, Hlz. cbn [orb].
    rewrite Hc2, Hc3. cbn [List.length Z.of_nat].
    rewrite app_nil_r. unfold roundDecimal. cbn [Z.sub Z.opp Z.add Z.leb Z.compare].
    change (10 ^ 0) with 1. rewrite Z.mul_1_r. reflexivity.
Qed.

Lemma to_uint_head (p : positive) :
  match lit (NilEmpty.string_of_uint (Pos.to_uint p)) with
  | z :: _ => N.eqb z 48 = false
  | [] => False
  end.
Proof.
  assert (Hn : Pos.to_uint p = Decimal.unorm (Pos.to_uint p)).
  { rewrite <- (DecimalPos.Unsigned.to_of (Pos.to_uint p)).
    rewrite DecimalPos.Unsigned.of_to. reflexivity. }
  pose proof (DecimalPos.Unsigned.to_uint_nonzero p) as Hnz.
  pose proof (DecimalFacts.nzhead_nonzero (Pos.to_uint p)) as Hh.
  unfold Decimal.unorm in Hn.
  destruct (Decimal.nzhead (Pos.to_uint p)) eqn:E;
    try (rewrite Hn; reflexivity).
  - contradiction.
  - exfalso. exact (Hh _ eq_refl).
Qed.

(** A printed integer is a JSON number, read as that integer. *)
Lemma Number_toString_token (z : Z) (c : N) (rest : jsstring) :
  separator c ->
  numberToken (Number_toString z ++ c :: rest) = Ok (ofInt z) (c :: rest) /\
  match Number_toString z with
  | h :: _ => (N.eqb h 45 || isDigit h) = true
  | [] => False
  end.
Proof.
  intros Hc. pose proof (Number_toString_cases z) as Hz.
  destruct z as [|p|p].
  - rewrite Hz. split; [|reflexivity].
    exact (numberToken_digits false (lit "0") c rest eq_refl eq_refl I Hc).
  - destruct (digits_of_positive p) as (He & Hd & Hv). cbv zeta in *.
    pose proof (to_uint_head p) as Hh.
    rewrite Hz. set (ds := lit (NilEmpty.string_of_uint (Pos.to_uint p))) in *.
    split.
    + replace (ofInt (Z.pos p)) with (round64 false (digitsValue 10 ds) 1)
        by (rewrite Hv; reflexivity).
      apply (numberToken_digits false ds c rest He Hd); [|exact Hc].
      destruct ds as [|z0 [|? ?]]; auto.
    + destruct ds as [|h t]; [exact Hh|].
      cbn in Hd. apply andb_true_iff in Hd. destruct Hd as [H1 _].
      rewrite H1. apply orb_true_r.
  - destruct (digits_of_positive p) as (He & Hd & Hv). cbv zeta in *.
    pose proof (to_uint_head p) as Hh.
    rewrite Hz. set (ds := lit (NilEmpty.string_of_uint (Pos.to_uint p))) in *.
    split; [|reflexivity].
    replace (ofInt (Z.neg p)) with (round64 true (digitsValue 10 ds) 1)
      by (rewrite Hv; reflexivity).
    apply (numberToken_digits true ds c rest He Hd); [|exact Hc].
    destruct ds as [|z0 [|? ?]]; auto.
Qed.

Lemma parseValue_quote (f : nat) (X : jsstring) :
  parseValue (S f) (34%N :: X)
  = match stringBody X with
    | Ok t rest => Ok (Str t) rest
    | SyntaxError => SyntaxError
    | OutOfFuel => OutOfFuel
    end.
Proof. reflexivity. Qed.

Lemma parseValue_string (f : nat) (s rest : jsstring) :
  parseValue (S f) (34%N :: quoteBody s ++ 34%N :: rest) = Ok (Str s) rest.
Proof. rewrite parseValue_quote, quoteBody_parses. reflexivity. Qed.

Lemma parseValue_numeral (f : nat) (h : N) (t : jsstring) :
  (N.eqb h 45 || isDigit h) = true ->
  parseValue (S f) (h :: t)
  = match numberToken (h :: t) with
    | Ok n rest => Ok (Num n) rest
    | SyntaxError => SyntaxError
    | OutOfFuel => OutOfFuel
    end.
Proof.
  intros H. apply orb_true_iff in H. destruct H as [H|H].
  - apply N.eqb_eq in H. subst h. reflexivity.
  - each_digit H; reflexivity.
Qed.

Lemma parseValue_number (f : nat) (z : Z) (c : N) (rest : jsstring) :
  separator c ->
  parseValue (S f) (Number_toString z ++ c :: rest)
  = Ok (Num (ofInt z)) (c :: rest).
Proof.
  intros Hc. destruct (Number_toString_token z c rest Hc) as [Ht Hh].
  destruct (Number_toString z) as [|h t] eqn:E; [contradiction|].
  cbn [app] in *. rewrite (parseValue_numeral f h _ Hh), Ht. reflexivity.
Qed.

Lemma parseValue_object (f : nat) (X : jsstring) :
  parseValue (S f) (123%N :: 34%N :: X)
  = match parseMembers f (34%N :: X) with
    | Ok ms rest => Ok (Obj ms) rest
    | SyntaxError => SyntaxError
    | OutOfFuel => OutOfFuel
    end.
Proof. reflexivity. Qed.

Lemma parseMembers_step (f : nat) (X k V : jsstring) (v : value) (c : N)
    (R : jsstring) :
  stringBody X = Ok k (58%N :: V) ->
  parseValue f V = Ok v (c :: R) ->
  isWs c = false ->
  parseMembers (S f) (34%N :: X)
  = if N.eqb c 125 then Ok [(k, v)] R
    else if N.eqb c 44 then
      match parseMembers f R with
      | Ok ms rest => Ok ((k, v) :: ms) rest
      | other => other
      end
    else SyntaxError.
Proof.
  intros H1 H2 H3.
  change (parseMembers (S f) (34%N :: X))
    with (match stringBody X with
          | Ok k r1 =>
              match skipWs r1 with
              | [] => SyntaxError
              | colon :: r2 =>
                  if negb (N.eqb colon 58) then SyntaxError
                  else
                    match parseValue f r2 with
                    | Ok v r3 =>
                        match skipWs r3 with
                        | c :: r4 =>
                            if N.eqb c 125 then Ok [(k, v)] r4
                            else if N.eqb c 44 then
                              match parseMembers f r4 with
                              | Ok ms rest => Ok ((k, v) :: ms) rest
                              | other => other
                              end
                            else SyntaxError
                        | [] => SyntaxError
                        end
                    | SyntaxError => SyntaxError
                    | OutOfFuel => OutOfFuel
                    end
              end
          | SyntaxError => SyntaxError
          | OutOfFuel => OutOfFuel
          end).
  rewrite H1.
  change (skipWs (58%N :: V)) with (58%N :: V). cbv beta iota.
  change (negb (N.eqb 58 58)) with false. cbv beta iota.
  rewrite H2.
  assert (Hs : skipWs (c :: R) = c :: R) by (cbn [skipWs]; rewrite H3; reflexivity).
  rewrite Hs. reflexivity.
Qed.

Lemma member_string_more (f : nat) (k s R : jsstring) :
  parseMembers (S (S f))
    (34%N :: quoteBody k ++ 34%N :: 58%N :: 34%N :: quoteBody s
       ++ 34%N :: 44%N :: R)
  = match parseMembers (S f) R with
    | Ok ms rest => Ok ((k, Str s) :: ms) rest
    | other => other
    end.
Proof.
  rewrite (parseMembers_step (S f) _ k _ (Str s) 44%N R
             (quoteBody_parses k _) (parseValue_string f s _) eq_refl).
  reflexivity.
Qed.

Lemma member_string_last (f : nat) (k s R : jsstring) :
  parseMembers (S (S f))
    (34%N :: quoteBody k ++ 34%N :: 58%N :: 34%N :: quoteBody s
       ++ 34%N :: 125%N :: R)
  = Ok [(k, Str s)] R.
Proof.
  rewrite (parseMembers_step (S f) _ k _ (Str s) 125%N R
             (quoteBody_parses k _) (parseValue_string f s _) eq_refl).
  reflexivity.
Qed.

Lemma member_number_more (f : nat) (k : jsstring) (z : Z) (R : jsstring) :
  parseMembers (S (S f))
    (34%N :: quoteBody k ++ 34%N :: 58%N :: Number_toString z ++ 44%N :: R)
  = match parseMembers (S f) R with
    | Ok ms rest => Ok ((k, Num (ofInt z)) :: ms) rest
    | other => other
    end.
Proof.
  rewrite (parseMembers_step (S f) _ k _ (Num (ofInt z)) 44%N R
             (quoteBody_parses k _)
             (parseValue_number f z 44%N R (or_introl eq_refl)) eq_refl).
  reflexivity.
Qed.

Lemma stringifyEntry_text (e : LeaderboardEntry) (R : jsstring) :
  stringifyEntry e ++ R
  = 123%N ::
    34%N :: quoteBody (lit "id") ++ 34%N :: 58%N ::
      34%N :: quoteBody (Entry.id e) ++ 34%N :: 44%N ::
    34%N :: quoteBody (lit "playerName") ++ 34%N :: 58%N ::
      34%N :: quoteBody (Entry.playerName e) ++ 34%N :: 44%N ::
    34%N :: quoteBody (lit "difficulty") ++ 34%N :: 58%N ::
      34%N :: quoteBody (keyName (Entry.difficulty e)) ++ 34%N :: 44%N ::
    34%N :: quoteBody (lit "attempts") ++ 34%N :: 58%N ::
      Number_toString (Entry.attempts e) ++ 44%N ::
    34%N :: quoteBody (lit "rangeMax") ++ 34%N :: 58%N ::
      Number_toString (Entry.rangeMax e) ++ 44%N ::
    34%N :: quoteBody (lit "dateISO") ++ 34%N :: 58%N ::
      34%N :: quoteBody (Entry.dateISO e) ++ 34%N :: 125%N :: R.
Proof.
  unfold stringifyEntry, member, QuoteJSONString.
  repeat (cbn [app]; rewrite <- ?app_assoc).
  reflexivity.
Qed.

(** A stringified entry is parsed as the value of the entry. *)
Lemma entry_parses (f : nat) (e : LeaderboardEntry) (R : jsstring) :
  parseValue (8 + f) (stringifyEntry e ++ R) = Ok (entryValue e) R.
Proof.
  rewrite stringifyEntry_text.
  change (8 + f)%nat with (S (S (S (S (S (S (S (S f)))))))).
  rewrite parseValue_object.
  rewrite member_string_more, member_string_more, member_string_more.
  rewrite member_number_more, member_number_more, member_string_last.
  reflexivity.
Qed.

Lemma parseElements_unfold (g : nat) (s : jsstring) :
  parseElements (S g) s
  = match parseValue g s with
    | Ok v r =>
        match skipWs r with
        | c :: r' =>
            if N.eqb c 93 then Ok [v] r'
            else if N.eqb c 44 then
              match parseElements g r' with
              | Ok vs rest => Ok (v :: vs) rest
              | other => other
              end
            else SyntaxError
        | [] => SyntaxError
        end
    | SyntaxError => SyntaxError
    | OutOfFuel => OutOfFuel
    end.
Proof. reflexivity. Qed.

Lemma elements_parse (es : list LeaderboardEntry) :
  forall (e : LeaderboardEntry) (g : nat) (R : jsstring),
    (List.length es + 9 <= g)%nat ->
    parseElements g (joinComma (map stringifyEntry (e :: es)) ++ 93%N :: R)
    = Ok (map entryValue (e :: es)) R.
Proof.
  induction es as [|e' es IH]; intros e g R Hg.
  - destruct g as [|g]; [cbn in Hg; lia|].
    cbn [List.length] in Hg.
    replace g with (8 + (g - 8))%nat by lia.
    cbn [map joinComma]. rewrite parseElements_unfold, entry_parses.
    reflexivity.
  - destruct g as [|g]; [cbn in Hg; lia|].
    cbn [List.length] in Hg.
    change (joinComma (map stringifyEntry (e :: e' :: es)))
      with (stringifyEntry e ++ 44%N :: joinComma (map stringifyEntry (e' :: es))).
    rewrite <- app_assoc. cbn [app].
    rewrite parseElements_unfold.
    replace g with (8 + (g - 8))%nat at 1 by lia.
    rewrite entry_parses.
    change (skipWs (44%N :: ?x)) with (44%N :: x).
    cbv beta iota. change (N.eqb 44 93) with false. change (N.eqb 44 44) with true.
    cbv beta iota.
    rewrite (IH e' g R) by lia. reflexivity.
Qed.

Lemma joinComma_length (es : list LeaderboardEntry) :
  (2 * List.length es <= List.length (joinComma (map stringifyEntry es)))%nat.
Proof.
  induction es as [|e es IH]; [cbn; lia|].
  assert (He : (2 <= List.length (stringifyEntry e))%nat).
  { rewrite <- (app_nil_r (stringifyEntry e)), stringifyEntry_text.
    cbn [List.length]. lia. }
  destruct es as [|e' es]; [cbn [map joinComma List.length]; lia|].
  change (joinComma (map stringifyEntry (e :: e' :: es)))
    with (stringifyEntry e ++ 44%N :: joinComma (map stringifyEntry (e' :: es))).
  rewrite length_app. cbn [List.length] in *. lia.
Qed.

Lemma JSON_parse_stringify (es : list LeaderboardEntry) :
  JSON.parse (JSON_stringify es) = Some (Arr (map entryValue es)).
Proof.
  destruct es as [|e es]; [reflexivity|].
  unfold JSON.parse, parseText.
  pose proof (joinComma_length (e :: es)) as HL.
  set (text := JSON_stringify (e :: es)).
  assert (Hlen : List.length text
                 = S (List.length (joinComma (map stringifyEntry (e :: es))) + 1)).
  { unfold text, JSON_stringify. cbn [List.length]. rewrite length_app.
    reflexivity. }
  cbn [List.length] in HL.
  destruct (2 * List.length text + 2)%nat as [|g] eqn:Eg; [lia|].
  assert (Hg : (List.length es + 9 <= g)%nat) by lia.
  assert (Hhead : exists t,
             joinComma (map stringifyEntry (e :: es)) ++ [93%N] = 123%N :: 34%N :: t).
  { destruct es as [|e' es'].
    - cbn [map joinComma]. rewrite stringifyEntry_text. eexists. reflexivity.
    - change (joinComma (map stringifyEntry (e :: e' :: es')))
        with (stringifyEntry e ++ 44%N :: joinComma (map stringifyEntry (e' :: es'))).
      rewrite <- app_assoc. rewrite stringifyEntry_text. eexists. reflexivity. }
  destruct Hhead as [t Ht].
  pose proof (elements_parse es e g [] Hg) as Hp.
  unfold text, JSON_stringify. rewrite Ht in *.
  assert (Hv : parseValue (S g) (91%N :: 123%N :: 34%N :: t)
               = match parseElements g (123%N :: 34%N :: t) with
                 | Ok vs rest' => Ok (Arr vs) rest'
                 | SyntaxError => SyntaxError
                 | OutOfFuel => OutOfFuel
                 end) by reflexivity.
  rewrite Hv, Hp. reflexivity.
Qed.

Lemma ofInt_safe (z : Z) :
  safeInteger z ->
  Number_isFinite (ofInt z) = true /\ Number_isInteger (ofInt z) = true /\
  intOf (ofInt z) = z.
Proof.
  unfold safeInteger, ofInt. intros Hz.
  destruct (round64_integer (z <? 0) (Z.abs z)) as (Hf & Hi & Hv); [lia|].
  split; [exact Hf|]. split; [exact Hi|].
  rewrite Hv. destruct (Z.ltb_spec z 0); lia.
Qed.

Lemma entryValue_represents (e : LeaderboardEntry) :
  safeEntry e -> represents (entryValue e) e.
Proof.
  intros [Ha Hm].
  destruct (ofInt_safe _ Ha) as (Ha1 & Ha2 & Ha3).
  destruct (ofInt_safe _ Hm) as (Hm1 & Hm2 & Hm3).
  unfold represents, stringMember, integerMember.
  assert (G1 : getMember "id" (entryValue e) = Some (Str (Entry.id e)))
    by reflexivity.
  assert (G2 : getMember "playerName" (entryValue e)
               = Some (Str (Entry.playerName e))) by reflexivity.
  assert (G3 : getMember "difficulty" (entryValue e)
               = Some (Str (keyName (Entry.difficulty e)))) by reflexivity.
  assert (G4 : getMember "attempts" (entryValue e)
               = Some (Num (ofInt (Entry.attempts e)))) by reflexivity.
  assert (G5 : getMember "rangeMax" (entryValue e)
               = Some (Num (ofInt (Entry.rangeMax e)))) by reflexivity.
  assert (G6 : getMember "dateISO" (entryValue e)
               = Some (Str (Entry.dateISO e))) by reflexivity.
  rewrite G1, G2, G3, G4, G5, G6.
  rewrite Ha1, Ha2, Ha3, Hm1, Hm2, Hm3. cbn [andb]. repeat split.
Qed.

Lemma load_stringify (es : list LeaderboardEntry) :
  load (AsyncStorage_getItem (Some (JSON_stringify es))) = map entryValue es.
Proof.
  unfold load, AsyncStorage_getItem, loadLeaderboard.
  change (isEmpty (JSON_stringify es)) with false. cbv iota.
  rewrite JSON_parse_stringify. reflexivity.
Qed.

Lemma map_represents (es : list LeaderboardEntry) :
  Forall safeEntry es -> Forall2 represents (map entryValue es) es.
Proof.
  induction 1 as [|e es He _ IH]; constructor.
  - apply entryValue_represents, He.
  - exact IH.
Qed.

(** X10. A collection written by [JSON.stringify], as
    [persistLeaderboard] stores it, is read back whole by the start-up
    load: [JSON.parse] accepts the text, the result is an array with
    one object for each entry, in the same order, and the members [id],
    [playerName], [difficulty] and [dateISO] of each object are the
    strings of the entry, whatever code units they hold, and
    [attempts] and [rangeMax] its integers.  The integers are taken
    below [2^53] in absolute value, where a Number holds and prints
    them exactly. *)
Theorem stored_collection_loads (es : list LeaderboardEntry) :
  Forall safeEntry es ->
  let loaded := load (AsyncStorage_getItem (Some (JSON_stringify es))) in
  loaded = map entryValue es /\ Forall2 represents loaded es.
Proof.
  intros Hs. cbv zeta. rewrite load_stringify.
  split; [reflexivity | exact (map_represents es Hs)].
Qed.

Lemma stored_collection_loads_witness :
  Forall2 represents
    (load (AsyncStorage_getItem (Some (JSON_stringify [Bo; Cy; Ann]))))
    [Bo; Cy; Ann].
Proof.
  apply (stored_collection_loads [Bo; Cy; Ann]).
  repeat constructor; vm_compute; reflexivity.
Defined.

(** ** The storage after an event *)

Lemma settleAll_quiet (effects : list Effect) (st : Storage) :
  forallb quiet effects = true -> settleAll effects st = st.
Proof.
  unfold settleAll. revert st.
  induction effects as [|e r IH]; intros st H; [reflexivity|].
  cbn in H. apply andb_true_iff in H. destruct H as [He Hr].
  cbn [fold_left]. rewrite (IH _ Hr). destruct e; try reflexivity; discriminate.
Qed.

Lemma handleSubmitGuess_quiet (s : AppState) :
  forallb quiet (snd (handleSubmitGuess s)) = true.
Proof.
  unfold handleSubmitGuess.
  destruct (gameOver s); [reflexivity|].
  destruct (parseGuess (guessText s)) as [guess|]; [|reflexivity].
  destruct ((guess <? min (difficulty s)) || (max (difficulty s) <? guess));
    [reflexivity|].
  unfold andThen. cbn [setAttempts].
  destruct (guess =? target s); [reflexivity|].
  destruct (guess <? target s);
    destruct (attemptLimitReached s (attempts s + 1)); reflexivity.
Qed.

Lemma config_safe (k : DifficultyKey) : safeInteger (max (configOf k)).
Proof. destruct k; vm_compute; reflexivity. Qed.

Section Persistence.

Variable localeCompare : jsstring -> jsstring -> Z.

Lemma saved_board_safe (h : Host) (s : AppState) (name : jsstring) (w : Z) :
  Forall safeEntry (leaderboard s) -> safeInteger w ->
  Forall safeEntry
    (firstn 50 (sortLeaderboard localeCompare
                  (newEntry h s name w :: leaderboard s))).
Proof.
  intros Hb Hw. apply Forall_forall. intros e He.
  apply In_firstn in He.
  apply (Permutation_in _ (Permutation_sym (Array_sort_perm _ _))) in He.
  destruct He as [<-|He].
  - split; [exact Hw|]. cbn [newEntry Entry.rangeMax]. apply config_safe.
  - exact (proj1 (Forall_forall _ _) Hb e He).
Qed.

(** X11. No event leaves in the storage anything but the collection
    on display: once the writes that a handler requested are done, the
    storage is as it was before the event, or the start-up load of what
    it holds gives the entries of the new state, in their order (after
    a saved win the new ranking of 50 entries at most, after a cleared
    leaderboard nothing). *)
Theorem storage_follows_display (ev : Event) (s : AppState) (st : Storage) :
  Forall safeEntry (leaderboard s) ->
  (forall w, pendingWinAttempts s = Some w -> safeInteger w) ->
  let st' := settleAll (snd (handle localeCompare ev s)) st in
  st' = st \/
  Forall2 represents (load (AsyncStorage_getItem st'))
    (leaderboard (step localeCompare ev s)).
Proof.
  intros Hb Hw. cbv zeta.
  destruct ev as [t| |u k|u|t| |h| | | | | |entries];
    try (left; apply settleAll_quiet; reflexivity).
  - left. apply settleAll_quiet. apply handleSubmitGuess_quiet.
  - left. apply settleAll_quiet. cbn [handle]. unfold pressDifficulty.
    destruct (DifficultyKey_eqb k (difficultyKey s)); reflexivity.
  - unfold step. cbn [handle]. unfold handleSaveWin.
    destruct (pendingWinAttempts s) as [w|] eqn:Ew; [|left; reflexivity].
    destruct (isEmpty (trim (playerName s))); [left; reflexivity|].
    right.
    set (next := firstn 50 (sortLeaderboard localeCompare
                              (newEntry h s (trim (playerName s)) w
                                 :: leaderboard s))).
    change (settleAll _ st) with (Some (JSON_stringify next)).
    change (leaderboard (fst _)) with next.
    rewrite load_stringify. apply map_represents.
    apply saved_board_safe; [exact Hb | exact (Hw w eq_refl)].
  - right. constructor.
Qed.

End Persistence.

Lemma storage_follows_display_witness :
  let s := wonWith (lit " Eve ") [Bo; Cy; Ann] in
  let st := settleAll (snd (handle codeUnitCompare (SavePressed host) s)) None in
  st <> None /\
  map Entry.playerName (leaderboard (step codeUnitCompare (SavePressed host) s))
  = [lit "Bo"; lit "Cy"; lit "Eve"; lit "Ann"] /\
  Forall2 represents (load (AsyncStorage_getItem st))
    (leaderboard (step codeUnitCompare (SavePressed host) s)).
Proof.
  cbv zeta.
  destruct (storage_follows_display codeUnitCompare (SavePressed host)
              (wonWith (lit " Eve ") [Bo; Cy; Ann]) None) as [H|H].
  - repeat constructor; vm_compute; reflexivity.
  - intros w Hw. vm_compute in Hw. injection Hw as <-. vm_compute. reflexivity.
  - vm_compute in H. discriminate H.
  - split; [vm_compute; discriminate|]. split; [vm_compute; reflexivity | exact H].
Defined.

(** ** Winning, and what is left to do after the end of a round *)

Lemma printed_natural (z : Z) :
  0 <= z < 2 ^ 53 ->
  filter isDigit (Number_toString z) = Number_toString z /\
  parseGuess (Number_toString z) = Some z.
Proof.
  intros Hz. pose proof (Number_toString_cases z) as Hc.
  destruct z as [|p|p]; [| |lia].
  - rewrite Hc. split; reflexivity.
  - destruct (digits_of_positive p) as (He & Hd & Hv). cbv zeta in *.
    rewrite Hc.
    set (ds := lit (NilEmpty.string_of_uint (Pos.to_uint p))) in *.
    split; [apply forallb_filter_id, Hd|].
    rewrite parseGuess_base10; rewrite ?(trim_digits ds Hd);
      unfold spec_isBase10Integer, spec_base10Value;
      rewrite ?(splitSign_digits ds Hd), ?He, ?Hd, ?Hv;
      [reflexivity | reflexivity | lia].
Qed.

Lemma difficulty_bounds (s : AppState) :
  1 <= min (difficulty s) /\ max (difficulty s) <= 100.
Proof. unfold difficulty. destruct (difficultyKey s); cbn; lia. Qed.

(** X12. An open round can always be won from the guess field: when
    the target is in the range of the difficulty, typing the target as
    the program prints it passes the digit filter of the field
    unchanged, and submitting it ends the round as a win, with one more
    attempt, the pending win recorded and the name prompt open. *)
Theorem round_is_winnable (s : AppState) :
  gameOver s = false -> target_ok s ->
  let typed := fst (onChangeText (Number_toString (target s)) s) in
  let s' := fst (handleSubmitGuess typed) in
  guessText typed = Number_toString (target s) /\
  gameOver s' = true /\ attempts s' = attempts s + 1 /\
  pendingWinAttempts s' = Some (attempts s + 1) /\ nameModalOpen s' = true.
Proof.
  intros Hg Ht. cbv zeta.
  destruct (difficulty_bounds s) as [Hmin Hmax]. unfold target_ok in Ht.
  destruct (printed_natural (target s)) as [Hf Hp]; [lia|].
  unfold onChangeText. rewrite Hf.
  set (typed := fst (setGuessText (Number_toString (target s)) s)).
  split; [reflexivity|].
  rewrite (submit_correct typed (target s) Hg Hp Ht eq_refl).
  repeat split.
Qed.

Lemma round_is_winnable_witness :
  let s' :=
    fst (handleSubmitGuess
           (fst (onChangeText (Number_toString (target mediumRound))
                   mediumRound))) in
  target mediumRound = 16 /\ gameOver s' = true /\
  pendingWinAttempts s' = Some 1.
Proof.
  cbv zeta.
  destruct (round_is_winnable mediumRound) as (_ & Hg & _ & Hp & _).
  - reflexivity.
  - vm_compute. split; discriminate.
  - split; [vm_compute; reflexivity|]. split; [exact Hg | exact Hp].
Defined.

Section Frozen.

Variable localeCompare : jsstring -> jsstring -> Z.

Lemma step_keepsRound (ev : Event) (s : AppState) :
  gameOver s = true -> keepsRound ev = true ->
  roundOf (step localeCompare ev s) = roundOf s.
Proof.
  intros Hg Hk. unfold step.
  destruct ev; try discriminate Hk; try reflexivity.
  - cbn [handle]. rewrite (submit_when_over s Hg). reflexivity.
  - cbn [handle]. unfold handleSaveWin.
    destruct (pendingWinAttempts s); [|reflexivity].
    destruct (isEmpty (trim (playerName s))); reflexivity.
Qed.

(** X13. A finished round stays as it is until a new one is started:
    once [gameOver] is set, no sequence of events without a difficulty
    chip or the New Game button (typing and submitting guesses, saving
    the win, opening, clearing or loading the leaderboard) changes the
    difficulty, the target, the attempts, [gameOver] or the hint. *)
Theorem finished_round_stays (events : list Event) (s : AppState) :
  gameOver s = true -> forallb keepsRound events = true ->
  roundOf (run localeCompare events s) = roundOf s.
Proof.
  revert s. induction events as [|ev r IH]; intros s Hg Hk; [reflexivity|].
  cbn [forallb] in Hk. apply andb_true_iff in Hk. destruct Hk as [Hev Hr].
  pose proof (step_keepsRound ev s Hg Hev) as Hs.
  unfold run in *. cbn [fold_left]. rewrite IH; [exact Hs | | exact Hr].
  unfold roundOf in Hs. injection Hs as _ _ _ Hg' _. rewrite Hg'. exact Hg.
Qed.

End Frozen.

Lemma finished_round_stays_witness :
  let s := wonWith (lit " Eve ") [Bo; Cy; Ann] in
  let s' :=
    run codeUnitCompare
      [GuessChanged (lit "9"); GuessSubmitted; SavePressed host; SaveSettled;
       LeaderboardClosed; GuessChanged (lit "3"); GuessSubmitted] s in
  gameOver s = true /\ roundOf s' = roundOf s /\
  List.length (leaderboard s') = 4%nat.
Proof.
  cbv zeta. split; [reflexivity|]. split.
  - apply (finished_round_stays codeUnitCompare); reflexivity.
  - vm_compute. reflexivity.
Defined.
